(** * A shallow embedding of the RAGOps Lab frontend and of the backend
    contracts it relies on.

    The frontend code (src/frontend) is embedded as it is written: the
    [useChat] hook as explicit state passing over its React state, the
    trace page's client-side filter, the upload guard.  The backend is
    not part of the sources; where a property depends on it, the backend
    behaviour is modelled from the specification and marked so. *)

From Stdlib Require Import ZArith Lia Bool Ascii.
From stdpp Require Import base list gmap strings pretty.

Open Scope Z_scope.

(* ================================================================== *)
(** ** Data model: [src/frontend/src/types/api.ts] *)

(** JavaScript numbers are modelled as integers (scores and costs as
    integers in a fixed unit); strings as Rocq strings (ASCII). *)

Module Citation.
Record t := mk {
    document_id : Z;
    document_name : string;
    chunk_id : Z;
    chunk_index : Z;
    content : string;
    page_number : option Z;
    relevance_score : Z
  }.
End Citation.

Inductive Role := user | assistant | system.

Definition role_eqb (a b : Role) : bool :=
  match a, b with
  | user, user | assistant, assistant | system, system => true
  | _, _ => false
  end.

Module ChatMessage.
Record t := mk {
    role : Role;
    content : string;
    citations : option (list Citation.t);
    is_refusal : bool;
    refusal_reason : option string;
    timestamp : option string
  }.
End ChatMessage.

Module ChatRequest.
Record t := mk {
    message : string;
    session_id : option string;
    include_sources : bool;
    max_sources : Z
  }.
End ChatRequest.

Module StreamChunk.
  (** [type: "content" | "citation" | "done" | "error"] *)
Inductive kind := content | citation | done | error.

Record t := mk {
    type : kind;
    content_ : option string;
    citation_ : option Citation.t;
    error_ : option string;
    run_id : option string;
    session_id : option string
  }.
End StreamChunk.

(** JavaScript truthiness of a [string | null | undefined] value, and the
    [a || b] idiom on such values. *)
Definition truthy (o : option string) : bool :=
  match o with Some s => negb (String.eqb s "") | None => false end.

Definition js_or (o : option string) (d : string) : string :=
  match o with Some s => if String.eqb s "" then d else s | None => d end.

Definition js_or_opt (o d : option string) : option string :=
  if truthy o then o else d.

(* ================================================================== *)
(** ** The [useChat] hook: [src/frontend/src/hooks/use-chat.ts] *)

Module ChatState.
Record t := mk {
    messages : list ChatMessage.t;
    citations : list Citation.t;
    sessionId : option string;
    isStreaming : bool;
    error : option string
  }.
End ChatState.

Definition initial_state : ChatState.t :=
  ChatState.mk [] [] None false None.

Definition set_messages (s : ChatState.t) (m : list ChatMessage.t) : ChatState.t :=
  ChatState.mk m (ChatState.citations s) (ChatState.sessionId s)
    (ChatState.isStreaming s) (ChatState.error s).

Definition set_citations (s : ChatState.t) (c : list Citation.t) : ChatState.t :=
  ChatState.mk (ChatState.messages s) c (ChatState.sessionId s)
    (ChatState.isStreaming s) (ChatState.error s).

Definition stop_streaming_flag (s : ChatState.t) : ChatState.t :=
  ChatState.mk (ChatState.messages s) (ChatState.citations s)
    (ChatState.sessionId s) false (ChatState.error s).

Definition set_error_stop (s : ChatState.t) (e : string) : ChatState.t :=
  ChatState.mk (ChatState.messages s) (ChatState.citations s)
    (ChatState.sessionId s) false (Some e).

(** [{...m, content: c}] and [{...m, citations: cs}] *)
Definition with_content (m : ChatMessage.t) (c : string) : ChatMessage.t :=
  ChatMessage.mk (ChatMessage.role m) c (ChatMessage.citations m)
    (ChatMessage.is_refusal m) (ChatMessage.refusal_reason m)
    (ChatMessage.timestamp m).

Definition with_citations (m : ChatMessage.t) (cs : option (list Citation.t))
  : ChatMessage.t :=
  ChatMessage.mk (ChatMessage.role m) (ChatMessage.content m) cs
    (ChatMessage.is_refusal m) (ChatMessage.refusal_reason m)
    (ChatMessage.timestamp m).

(** [const last = msgs[msgs.length - 1];
     if (last?.role === "assistant") msgs[msgs.length - 1] = f(last)] *)
Definition update_last_assistant (f : ChatMessage.t -> ChatMessage.t)
    (msgs : list ChatMessage.t) : list ChatMessage.t :=
  match msgs !! (length msgs - 1)%nat with
  | Some last =>
      if role_eqb (ChatMessage.role last) assistant
      then <[(length msgs - 1)%nat := f last]> msgs
      else msgs
  | None => msgs
  end.

(** [String.prototype.trim]: whitespace is the ASCII part of the
    ECMAScript WhiteSpace and LineTerminator sets (TAB, LF, VT, FF, CR,
    SPACE). *)
Definition js_space (c : ascii) : bool :=
  let n := Ascii.nat_of_ascii c in
  (Nat.eqb n 9 || Nat.eqb n 10 || Nat.eqb n 11 || Nat.eqb n 12
   || Nat.eqb n 13 || Nat.eqb n 32)%bool.

Fixpoint drop_space (l : list ascii) : list ascii :=
  match l with
  | c :: r => if js_space c then drop_space r else l
  | [] => []
  end.

Definition trim (s : string) : string :=
  String.string_of_list_ascii
    (rev (drop_space (rev (drop_space (String.list_ascii_of_string s))))).

(** The locals of one [sendMessage] call that outlive a single chunk:
    the [collectedCitations] array, and the index of the message whose
    [citations] field is that very array (the [done] updater stores the
    array itself, not a copy, so later pushes are visible through it). *)
Record Turn := mkTurn {
  collected : list Citation.t;
  alias : option nat
}.

Definition empty_turn : Turn := mkTurn [] None.

(** [collectedCitations.push(c)], run at once by the loop, and seen
    through every alias of the array. *)
Definition push_citation (t : Turn) (s : ChatState.t) (c : Citation.t)
  : Turn * ChatState.t :=
  let col := collected t ++ [c] in
  let msgs := ChatState.messages s in
  let msgs' :=
    match alias t with
    | Some i =>
        match msgs !! i with
        | Some m => <[i := with_citations m (Some col)]> msgs
        | None => msgs
        end
    | None => msgs
    end in
  (mkTurn col (alias t), set_messages s msgs').

(** The [setState] updater the loop queues for a chunk, as React runs it
    on the state it renders from. It reads [collectedCitations] when it
    runs, not when it was queued: the [citation] updater copies the array
    as it is then, and the [done] updater tests its length then. *)
Definition run_updater (t : Turn) (s : ChatState.t) (ch : StreamChunk.t)
  : Turn * ChatState.t :=
  match StreamChunk.type ch with
  | StreamChunk.content =>
      let d := js_or (StreamChunk.content_ ch) "" in
      (t, set_messages s
            (update_last_assistant
               (fun last => with_content last (ChatMessage.content last +:+ d))
               (ChatState.messages s)))
  | StreamChunk.citation => (t, set_citations s (collected t))
  | StreamChunk.done =>
      let msgs := ChatState.messages s in
      let n := (length msgs - 1)%nat in
      let shared := match collected t with [] => false | _ => true end in
      let is_last_asst :=
        match msgs !! n with
        | Some last => role_eqb (ChatMessage.role last) assistant
        | None => false
        end in
      let msgs' :=
        update_last_assistant
          (fun last => with_citations last
             (if shared then Some (collected t) else None)) msgs in
      (mkTurn (collected t)
         (if shared && is_last_asst then Some n else alias t),
       ChatState.mk msgs' (ChatState.citations s)
         (js_or_opt (StreamChunk.session_id ch) (ChatState.sessionId s))
         false (ChatState.error s))
  | StreamChunk.error =>
      (t, set_error_stop s (js_or (StreamChunk.error_ ch) "Unknown error"))
  end.

Definition run_updaters (ts : Turn * ChatState.t) (q : list StreamChunk.t)
  : Turn * ChatState.t :=
  foldl (fun ts ch => run_updater ts.1 ts.2 ch) ts q.

(** The hook during a turn: the call's locals, the state of the last
    render, and the chunks whose updaters are queued since, in order. *)
Record Hook := mkHook {
  turn : Turn;
  committed : ChatState.t;
  queue : list StreamChunk.t
}.

(** The body of the [for (const line of lines)] loop for one parsed
    chunk: the push onto [collectedCitations] happens at once, the
    [setState] updater is queued. *)
Definition dispatch (h : Hook) (ch : StreamChunk.t) : Hook :=
  let enqueue := mkHook (turn h) (committed h) (queue h ++ [ch]) in
  match StreamChunk.type ch with
  | StreamChunk.content =>
      if truthy (StreamChunk.content_ ch) then enqueue else h
  | StreamChunk.citation =>
      match StreamChunk.citation_ ch with
      | Some c =>
          let ts := push_citation (turn h) (committed h) c in
          mkHook ts.1 ts.2 (queue h ++ [ch])
      | None => h
      end
  | StreamChunk.done => enqueue
  | StreamChunk.error => enqueue
  end.

(** React renders: the queued updaters run, in order. *)
Definition render (h : Hook) : Hook :=
  let ts := run_updaters (turn h, committed h) (queue h) in
  mkHook ts.1 ts.2 [].

(** A line of the event stream: a ["data: "] line whose payload parsed
    as a [StreamChunk] ([Some]), a ["data: "] line whose payload is empty
    or malformed JSON ([None], skipped), or any other line (skipped). *)
Inductive Line := DataLine (payload : option StreamChunk.t) | OtherLine.

Definition apply_line (h : Hook) (l : Line) : Hook :=
  match l with
  | DataLine (Some ch) => dispatch h ch
  | _ => h
  end.

Definition apply_lines (h : Hook) (ls : list Line) : Hook :=
  foldl apply_line h ls.

(** What happens while the loop waits on [await reader.read()]: a read
    that yields a batch of complete lines, a render of React (updates
    made outside an event handler are rendered later, when the call
    waits), the end of the body, a rejection caused by [stopStreaming]
    (the controller's abort, an [AbortError]), or another rejection.
    React may also run an updater as soon as it is queued, when no other
    update is pending (its eager state); that is a [Render] right after
    that chunk, the read split there. *)
Inductive Inp :=
  | Read (lines : list Line)
  | Render
  | Eof
  | Stop
  | ReadFail (msg : string).

(** The [while (true)] loop and the handlers after it; the state is the
    one React renders once the queued updaters (and the handler's) have
    run. A finite list that runs out leaves the call suspended on its
    next [read], after React rendered. *)
Fixpoint run_loop (h : Hook) (inps : list Inp) : ChatState.t :=
  match inps with
  | [] => committed (render h)
  | Read ls :: rest => run_loop (apply_lines h ls) rest
  | Render :: rest => run_loop (render h) rest
  | Eof :: _ => stop_streaming_flag (committed (render h))
  | Stop :: _ => stop_streaming_flag (committed (render h))
  | ReadFail m :: _ => set_error_stop (committed (render h)) m
  end.

(** The outcome of [await chat.stream(...)] and of the checks on the
    response before the loop. [NotOk None st]: the error body is not JSON
    ([.catch(() => ({ detail: "Stream request failed" }))]). *)
Inductive FetchOutcome :=
  | FetchAborted
  | FetchFailed (msg : string)
  | NotOk (detail : option (option string)) (status : Z)
  | NoBody
  | Body (inps : list Inp).

Definition stream_turn (s : ChatState.t) (fo : FetchOutcome) : ChatState.t :=
  match fo with
  | FetchAborted => stop_streaming_flag s
  | FetchFailed m => set_error_stop s m
  | NotOk d st =>
      let detail := match d with
                    | None => Some "Stream request failed"
                    | Some x => x
                    end in
      set_error_stop s (js_or detail ("Error: " +:+ pretty st))
  | NoBody => set_error_stop s "No response body"
  | Body inps => run_loop (mkHook empty_turn s []) inps
  end.

Definition user_message (text : string) : ChatMessage.t :=
  ChatMessage.mk user text None false None None.

Definition assistant_placeholder : ChatMessage.t :=
  ChatMessage.mk assistant "" None false None None.

(** The synchronous part of [sendMessage]. [snap] is the state of the
    render that created the callback (the closure's [state]); [s] is the
    current state the updaters run on. Returns the request issued, if
    any, and the state after the two initial [setState] calls (their
    updaters read nothing but the state they run on, so when React runs
    them does not matter). *)
Definition sendMessage (snap : ChatState.t) (text : string) (s : ChatState.t)
  : option ChatRequest.t * ChatState.t :=
  if String.eqb (trim text) "" || ChatState.isStreaming snap then (None, s)
  else
    let s1 := ChatState.mk (ChatState.messages s ++ [user_message text]) []
                (ChatState.sessionId s) true None in
    let s2 := set_messages s1 (ChatState.messages s1 ++ [assistant_placeholder]) in
    (Some (ChatRequest.mk text (ChatState.sessionId snap) true 5), s2).

(** A whole turn: [sendMessage] and then the stream it consumes. *)
Definition chat_turn (snap : ChatState.t) (text : string) (s : ChatState.t)
    (fo : FetchOutcome) : ChatState.t :=
  match sendMessage snap text s with
  | (None, s') => s'
  | (Some _, s') => stream_turn s' fo
  end.

Definition mk_content (d : string) : StreamChunk.t :=
  StreamChunk.mk StreamChunk.content (Some d) None None None None.

Definition mk_citation_chunk (c : Citation.t) : StreamChunk.t :=
  StreamChunk.mk StreamChunk.citation None (Some c) None None None.

Definition mk_done (sid : option string) : StreamChunk.t :=
  StreamChunk.mk StreamChunk.done None None None None sid.

(** The chunks that the stream delivers to the loop, in order. *)
Definition line_chunk (l : Line) : option StreamChunk.t :=
  match l with DataLine (Some ch) => Some ch | _ => None end.

Definition inp_chunks (i : Inp) : list StreamChunk.t :=
  match i with Read ls => omap line_chunk ls | _ => [] end.

(* ================================================================== *)
(** ** Evidence and the synthesizer (backend, not in the sources) *)

Module Chunk.
Record t := mk {
    id : Z;
    document_id : Z;
    document_name : string;
    chunk_index : Z;
    content : string;
    page_number : option Z
  }.
End Chunk.

Module RetrievedCandidate.
Record t := mk {
    chunk : Chunk.t;
    score : Z;
    rank : nat
  }.
End RetrievedCandidate.

Definition citation_of (rc : RetrievedCandidate.t) : Citation.t :=
  let c := RetrievedCandidate.chunk rc in
  Citation.mk (Chunk.document_id c) (Chunk.document_name c) (Chunk.id c)
    (Chunk.chunk_index c) (Chunk.content c) (Chunk.page_number c)
    (RetrievedCandidate.score rc).

Definition evidence_ids (ev : list RetrievedCandidate.t) : list Z :=
  map (fun rc => Chunk.id (RetrievedCandidate.chunk rc)) ev.

(** What the generation model produces, as the synthesizer scans it: text
    deltas and the reference tags it detects in them ([[k]], 1-based rank
    index of the presented evidence). *)
Inductive GenTok := GText (d : string) | GRef (tag : nat).

Definition resolve_tag (ev : list RetrievedCandidate.t) (k : nat)
  : option RetrievedCandidate.t :=
  match k with O => None | S j => nth_error ev j end.

(** Modelled from the spec: the streaming variant of the Citation-Grounded
    Synthesizer (section 4.2), whose code is not in the sources. Content
    deltas are yielded as they arrive; a detected tag that names a
    presented evidence item yields a [citation] event for that chunk, a tag
    outside the presented set is a schema violation recorded by the
    validation event, and there is no chunk to build a citation from; the
    sequence ends with [done] or, on a generation failure, [error]. *)
Definition synth_stream (ev : list RetrievedCandidate.t) (toks : list GenTok)
    (failure : option string) (sid : string) : list StreamChunk.t :=
  flat_map (fun tk =>
    match tk with
    | GText d => [mk_content d]
    | GRef k =>
        match resolve_tag ev k with
        | Some rc => [mk_citation_chunk (citation_of rc)]
        | None => []
        end
    end) toks
  ++ [match failure with
      | None => mk_done (Some sid)
      | Some m => StreamChunk.mk StreamChunk.error None None (Some m) None (Some sid)
      end].

(** What the generator returns on the non-streaming path. *)
Inductive GenResult := Answer (toks : list GenTok) | Refuse (reason : string).

Fixpoint gen_text (toks : list GenTok) : string :=
  match toks with
  | GText d :: r => d +:+ gen_text r
  | _ :: r => gen_text r
  | [] => ""
  end.

Definition gen_citations (ev : list RetrievedCandidate.t) (toks : list GenTok)
  : list Citation.t :=
  omap (fun tk => match tk with
                  | GRef k => option_map citation_of (resolve_tag ev k)
                  | GText _ => None
                  end) toks.

(** Modelled from the spec: the non-streaming [answer] of the Synthesizer
    (section 4.2 refusal policy, scenario B: empty evidence is refused). *)
Definition answer (ev : list RetrievedCandidate.t) (g : GenResult) : ChatMessage.t :=
  let refusal r := ChatMessage.mk assistant r None true (Some r) None in
  match ev, g with
  | [], _ => refusal "insufficient evidence"
  | _, Refuse r => refusal r
  | _, Answer toks =>
      let cs := gen_citations ev toks in
      ChatMessage.mk assistant (gen_text toks)
        (match cs with [] => None | _ => Some cs end) false None None
  end.

(** An input after which the loop goes on waiting: a read, or a render
    while it waits. *)
Definition is_read (i : Inp) : bool :=
  match i with Read _ | Render => true | _ => false end.

(** A message that is a refusal carries no citations and its content is
    the refusal reason. *)
Definition refusal_ok (m : ChatMessage.t) : Prop :=
  ChatMessage.is_refusal m = true ->
  ChatMessage.citations m = None
  /\ ChatMessage.refusal_reason m = Some (ChatMessage.content m).

(** The citations that the [citation] events of a chunk sequence deliver. *)
Definition citations_in (chs : list StreamChunk.t) : list Citation.t :=
  omap (fun ch => match StreamChunk.type ch with
                  | StreamChunk.citation => StreamChunk.citation_ ch
                  | _ => None
                  end) chs.


(* ================================================================== *)
(** ** The Retrieval Engine (backend, not in the sources) *)

(** Modelled from the spec: [retrieve(query, top_k, rerank_top_k)] of
    section 4.1, whose code is not in the sources. The external index
    answers the query embedding with [(chunk, distance)] pairs ordered by
    distance ([None] when it is unreachable); stage 1 keeps the [top_k]
    nearest, scored by similarity [1 - distance]; stage 2, when a reranker
    is configured, rescores each chunk and re-sorts by score, descending
    and stable; the output is truncated to [rerank_top_k] and ranked. *)
Inductive RetrievalError := RetrievalUnavailable.

Inductive RetrieveResult :=
  | RetrieveOk (cands : list RetrievedCandidate.t)
  | RetrieveErr (e : RetrievalError).

Definition stage1 (hits : list (Chunk.t * Z)) (top_k : nat) : list (Chunk.t * Z) :=
  map (fun h => (h.1, 1 - h.2)) (firstn top_k hits).

(** Stable insertion into a list sorted by descending score: an element
    goes before the first one whose score is not greater than its own, so
    among equal scores the element that came first stays first. *)
Fixpoint insert_desc (x : Chunk.t * Z) (l : list (Chunk.t * Z)) : list (Chunk.t * Z) :=
  match l with
  | [] => [x]
  | y :: r => if Z.leb y.2 x.2 then x :: y :: r else y :: insert_desc x r
  end.

Fixpoint sort_desc (l : list (Chunk.t * Z)) : list (Chunk.t * Z) :=
  match l with
  | [] => []
  | x :: r => insert_desc x (sort_desc r)
  end.

(** The candidate list stage 2 sorts: stage 1's order, stage 2's scores. *)
Definition upstream (hits : list (Chunk.t * Z)) (reranker : option (Chunk.t -> Z))
    (top_k : nat) : list (Chunk.t * Z) :=
  match reranker with
  | Some f => map (fun p => (p.1, f p.1)) (stage1 hits top_k)
  | None => stage1 hits top_k
  end.

Definition stage2 (hits : list (Chunk.t * Z)) (reranker : option (Chunk.t -> Z))
    (top_k : nat) : list (Chunk.t * Z) :=
  match reranker with
  | Some _ => sort_desc (upstream hits reranker top_k)
  | None => upstream hits reranker top_k
  end.

Fixpoint assign_ranks (i : nat) (l : list (Chunk.t * Z)) : list RetrievedCandidate.t :=
  match l with
  | [] => []
  | p :: r => RetrievedCandidate.mk p.1 p.2 i :: assign_ranks (S i) r
  end.

Definition retrieve (index : option (list (Chunk.t * Z)))
    (reranker : option (Chunk.t -> Z)) (top_k rerank_top_k : nat) : RetrieveResult :=
  match index with
  | None => RetrieveErr RetrievalUnavailable
  | Some hits =>
      RetrieveOk (assign_ranks 1 (firstn rerank_top_k (stage2 hits reranker top_k)))
  end.

Fixpoint non_increasing (l : list Z) : bool :=
  match l with
  | x :: ((y :: _) as r) => Z.leb y x && non_increasing r
  | _ => true
  end.

Fixpoint non_decreasing (l : list Z) : bool :=
  match l with
  | x :: ((y :: _) as r) => Z.leb x y && non_decreasing r
  | _ => true
  end.

(* ================================================================== *)
(** ** Trace events and the Trace Recorder *)

Inductive EventType := retrieval | tool_call | model_call | validation | error_event.

(** [TraceEventResponse]; the free-form [event_data] payload is left out. *)
Module TraceEvent.
Record t := mk {
    id : Z;
    trace_id : string;
    run_id : string;
    session_id : string;
    event_type : EventType;
    event_name : string;
    duration_ms : option Z;
    tokens_in : option Z;
    tokens_out : option Z;
    cost_usd : option Z;
    status : string;
    error_message : option string;
    timestamp : string
  }.
End TraceEvent.

(** The [summary] of [TraceDetailResponse] ([event_type_counts] apart). *)
Module TraceDetailSummary.
Record t := mk {
    total_events : nat;
    total_duration_ms : Z;
    total_tokens : Z;
    total_cost_usd : Z;
    has_errors : bool
  }.
End TraceDetailSummary.

Definition num (o : option Z) : Z := default 0 o.

Definition sum_Z (l : list Z) : Z := fold_right Z.add 0 l.

Section Recorder.
  (** Which event statuses indicate a failure. *)
Variable is_failure : string -> bool.

  (** Modelled from the spec: [record(run_id, event)] of section 4.3,
      whose code is not in the sources: the run's event list is created
      on its first event and only ever appended to. *)
Definition record (store : gmap string (list TraceEvent.t)) (run_id : string)
      (ev : TraceEvent.t) : gmap string (list TraceEvent.t) :=
    <[run_id := default [] (store !! run_id) ++ [ev]]> store.

Definition record_all (store : gmap string (list TraceEvent.t))
      (log : list (string * TraceEvent.t)) : gmap string (list TraceEvent.t) :=
    foldl (fun st p => record st p.1 p.2) store log.

Definition summary_step (acc : TraceDetailSummary.t) (e : TraceEvent.t)
    : TraceDetailSummary.t :=
    TraceDetailSummary.mk
      (S (TraceDetailSummary.total_events acc))
      (TraceDetailSummary.total_duration_ms acc + num (TraceEvent.duration_ms e))
      (TraceDetailSummary.total_tokens acc
         + (num (TraceEvent.tokens_in e) + num (TraceEvent.tokens_out e)))
      (TraceDetailSummary.total_cost_usd acc + num (TraceEvent.cost_usd e))
      (TraceDetailSummary.has_errors acc || is_failure (TraceEvent.status e)).

  (** Modelled from the spec: [summarize(run_id)] of section 4.3, one
      pass over the run's events with running totals. *)
Definition summarize (store : gmap string (list TraceEvent.t)) (run_id : string)
    : TraceDetailSummary.t :=
    foldl summary_step (TraceDetailSummary.mk 0 0 0 0 false)
      (default [] (store !! run_id)).
End Recorder.

(* ================================================================== *)
(** ** The traces page: [src/frontend/src/pages/chat.tsx] and
    [src/frontend/src/lib/api.ts] *)

Module TraceSummary.
Record t := mk {
    run_id : string;
    session_id : option string;
    event_count : Z;
    total_duration_ms : Z;
    total_tokens : Z;
    total_cost_usd : Z;
    status : string;
    first_event_at : option string;
    last_event_at : option string
  }.
End TraceSummary.

(** [toLowerCase] on ASCII letters. *)
Definition lower_char (c : ascii) : ascii :=
  let n := Ascii.nat_of_ascii c in
  if (Nat.leb 65 n && Nat.leb n 90)%bool then Ascii.ascii_of_nat (n + 32) else c.

Fixpoint toLowerCase (s : string) : string :=
  match s with
  | EmptyString => EmptyString
  | String c r => String (lower_char c) (toLowerCase r)
  end.

(** [s.includes(f)]: [f] occurs in [s] at some position. *)
Fixpoint includes (s f : string) : bool :=
  String.prefix f s ||
  match s with
  | EmptyString => false
  | String _ r => includes r f
  end.

(** The [filteredTraces] memo of the second [TracesPage]. *)
Definition filteredTraces (traces : list TraceSummary.t) (sessionFilter : string)
  : list TraceSummary.t :=
  if String.eqb sessionFilter "" then traces
  else
    let filter := toLowerCase sessionFilter in
    List.filter (fun t =>
      match TraceSummary.session_id t with
      | Some sid => includes (toLowerCase sid) filter
      | None => false
      end
      || includes (toLowerCase (TraceSummary.run_id t)) filter) traces.

(** The query parameters [traces.list] sends, in order. *)
Definition traces_list_params (page pageSize : Z) (sessionId eventType : option string)
  : list (string * string) :=
  [("page", pretty page); ("page_size", pretty pageSize)]
  ++ (if truthy sessionId then [("session_id", js_or sessionId "")] else [])
  ++ (match eventType with
      | Some et => if truthy eventType && negb (String.eqb et "all")
                   then [("event_type", et)] else []
      | None => []
      end).

(** The request the page makes: [useTraces(1, 50, undefined,
    eventType !== "all" ? eventType : undefined)]. *)
Definition page_params (eventType : string) : list (string * string) :=
  traces_list_params 1 50 None
    (if negb (String.eqb eventType "all") then Some eventType else None).

(** Modelled from the spec ("trace listing ... filterable by session
    identifier and event type"); the server is not in the sources. It
    knows each trace with the types of its events; a listing request with
    an [event_type] parameter only returns traces with an event of that
    type, one with a [session_id] parameter only traces of that session,
    and the request asks for the page [page] of [size] traces. *)
Definition lookup_param (k : string) (ps : list (string * string)) : option string :=
  option_map snd (List.find (fun p => String.eqb p.1 k) ps).

Definition server_list (store : list (TraceSummary.t * list string))
    (ps : list (string * string)) (page size : nat) : list TraceSummary.t :=
  let hits :=
    List.filter (fun p =>
      match lookup_param "event_type" ps with
      | Some et => existsb (String.eqb et) p.2
      | None => true
      end
      && match lookup_param "session_id" ps with
         | Some sid => match TraceSummary.session_id p.1 with
                       | Some x => String.eqb x sid
                       | None => false
                       end
         | None => true
         end) store in
  firstn size (skipn ((page - 1) * size) (map fst hits)).

(** What the second [TracesPage] lists: its filter applied to the first
    page of 50 traces of the listing it requests. *)
Definition traces_page (store : list (TraceSummary.t * list string))
    (eventType sessionFilter : string) : list TraceSummary.t :=
  filteredTraces (server_list store (page_params eventType) 1 50) sessionFilter.

(* ================================================================== *)
(** ** The Evaluation Harness run lifecycle (backend, not in the sources) *)

Inductive EvalStatus := pending | running | completed | failed | cancelled.

Definition is_terminal (st : EvalStatus) : bool :=
  match st with completed | failed | cancelled => true | _ => false end.

Module EvalRun.
Record t := mk {
    status : EvalStatus;
    total_cases : nat;
    started_cases : nat;
    completed_cases : nat;
    cancel_requested : bool
  }.
End EvalRun.

Inductive HarnessEvent :=
  | Begin
  | StartCase
  | FinishCase
  | BetweenCases
  | DatasetFault
  | CancelRequest.

Definition with_status (r : EvalRun.t) (st : EvalStatus) : EvalRun.t :=
  EvalRun.mk st (EvalRun.total_cases r) (EvalRun.started_cases r)
    (EvalRun.completed_cases r) (EvalRun.cancel_requested r).

(** Modelled from the spec: the EvalRun state machine of section 4.4,
    whose code is not in the sources. [Begin]: the harness starts
    iterating; [StartCase]: a new case is scheduled, never after a cancel
    request; [FinishCase]: a case in flight finishes (also after the run
    was cancelled); [BetweenCases]: the harness checks for a cancel
    request or for the last case; [DatasetFault]: an unrecoverable harness
    fault; [CancelRequest]: [POST /api/evals/{id}/cancel], which records the
    request on a run that is not yet terminal and returns a terminal run as
    it is. *)
Definition harness_step (r : EvalRun.t) (e : HarnessEvent) : EvalRun.t :=
  let st := EvalRun.status r in
  match e with
  | Begin => match st with pending => with_status r running | _ => r end
  | StartCase =>
      match st with
      | running =>
          if negb (EvalRun.cancel_requested r)
             && Nat.ltb (EvalRun.started_cases r) (EvalRun.total_cases r)
          then EvalRun.mk st (EvalRun.total_cases r) (S (EvalRun.started_cases r))
                 (EvalRun.completed_cases r) (EvalRun.cancel_requested r)
          else r
      | _ => r
      end
  | FinishCase =>
      if Nat.ltb (EvalRun.completed_cases r) (EvalRun.started_cases r)
      then EvalRun.mk st (EvalRun.total_cases r) (EvalRun.started_cases r)
             (S (EvalRun.completed_cases r)) (EvalRun.cancel_requested r)
      else r
  | BetweenCases =>
      match st with
      | running =>
          if EvalRun.cancel_requested r then with_status r cancelled
          else if Nat.eqb (EvalRun.completed_cases r) (EvalRun.total_cases r)
          then with_status r completed
          else r
      | _ => r
      end
  | DatasetFault => match st with running => with_status r failed | _ => r end
  | CancelRequest =>
      if is_terminal st then r
      else EvalRun.mk st (EvalRun.total_cases r) (EvalRun.started_cases r)
             (EvalRun.completed_cases r) true
  end.

Definition harness_run (r : EvalRun.t) (evs : list HarnessEvent) : EvalRun.t :=
  foldl harness_step r evs.

(** The edges of [pending -> running -> {completed, failed, cancelled}]. *)
Definition status_edge (a b : EvalStatus) : bool :=
  match a, b with
  | pending, running => true
  | running, (completed | failed | cancelled) => true
  | _, _ => false
  end.

Definition status_eqb (a b : EvalStatus) : bool :=
  match a, b with
  | pending, pending | running, running | completed, completed
  | failed, failed | cancelled, cancelled => true
  | _, _ => false
  end.

(* ================================================================== *)
(** ** The upload guard: [src/frontend/src/features/corpus/upload-zone.tsx] *)

Module File.
Record t := mk { type : string; name : string; size : Z }.
End File.

Module DocumentResponse.
Record t := mk {
    id : Z;
    filename : string;
    original_filename : string;
    content_type : string;
    file_size : Z;
    status : string;
    error_message : option string;
    chunk_count : Z;
    created_at : string;
    updated_at : string
  }.
End DocumentResponse.

Inductive Effect :=
  | ToastError (msg : string)
  | ToastWarning (msg : string)
  | UploadMutate (file : File.t).

Definition endsWith (s suffix : string) : bool :=
  Nat.leb (String.length suffix) (String.length s)
  && String.eqb (String.substring (String.length s - String.length suffix)
                   (String.length suffix) s) suffix.

Definition dq : string := String (Ascii.ascii_of_nat 34) EmptyString.

(** [handleFile]: the effects of one call, in order. *)
Definition handleFile (docData : option (list DocumentResponse.t)) (file : File.t)
  : list Effect :=
  let allowed := ["application/pdf"; "text/plain"; "text/markdown"] in
  if negb (existsb (String.eqb (File.type file)) allowed)
     && negb (endsWith (File.name file) ".md")
  then [ToastError "Unsupported file type. Use PDF, TXT, or MD."]
  else if Z.ltb (10 * 1024 * 1024) (File.size file)
  then [ToastError "File too large. Maximum size is 10MB."]
  else
    let existing :=
      match docData with
      | Some docs => List.find (fun d => String.eqb
                       (DocumentResponse.original_filename d) (File.name file)) docs
      | None => None
      end in
    (match existing with
     | Some _ => [ToastWarning (dq +:+ File.name file +:+ dq
                   +:+ " already exists in your corpus. Uploading a duplicate.")]
     | None => []
     end) ++ [UploadMutate file].

Definition is_upload (e : Effect) : bool :=
  match e with UploadMutate _ => true | _ => false end.

Definition is_error (e : Effect) : bool :=
  match e with ToastError _ => true | _ => false end.

(* ================================================================== *)
(** ** The turn invariant *)

Definition cits_ok (P : Citation.t -> Prop) (o : option (list Citation.t)) : Prop :=
  match o with Some cs => Forall P cs | None => True end.

Definition chunk_ok (P : Citation.t -> Prop) (ch : StreamChunk.t) : Prop :=
  forall c, StreamChunk.citation_ ch = Some c -> P c.

(* ================================================================== *)
(** ** Sample inputs *)

Definition chunk_a : Chunk.t := Chunk.mk 1 10 "a.pdf" 0 "alpha" None.
Definition chunk_b : Chunk.t := Chunk.mk 2 10 "a.pdf" 1 "beta" None.
Definition chunk_c : Chunk.t := Chunk.mk 3 11 "b.txt" 0 "gamma" None.

Definition trace_abc : TraceSummary.t :=
  TraceSummary.mk "abc123" (Some "zzz") 1 0 0 0 "success" None None.

Definition done_run : EvalRun.t := EvalRun.mk completed 4 4 4 false.

Definition cit1 : Citation.t := Citation.mk 1 "a.pdf" 11 0 "alpha" None 90.
Definition cit2 : Citation.t := Citation.mk 1 "a.pdf" 12 1 "beta" None 80.

(* ================================================================== *)
(** ** The turn, observed: what the loop consumes and what it leaves *)

(** The chunks the [while] loop consumes before it leaves: those of the
    leading reads, up to the end of the body, an abort or a failed read. *)
Fixpoint consumed (inps : list Inp) : list StreamChunk.t :=
  match inps with
  | Read ls :: rest => omap line_chunk ls ++ consumed rest
  | Render :: rest => consumed rest
  | _ => []
  end.

(** What makes the loop leave, if anything does. *)
Fixpoint loop_end (inps : list Inp) : option Inp :=
  match inps with
  | [] => None
  | Read _ :: rest => loop_end rest
  | Render :: rest => loop_end rest
  | i :: _ => Some i
  end.

(** The statements after the loop, for the way it was left. *)
Definition finish (e : option Inp) (s : ChatState.t) : ChatState.t :=
  match e with
  | Some Eof | Some Stop => stop_streaming_flag s
  | Some (ReadFail m) => set_error_stop s m
  | _ => s
  end.

Definition turn_chunks (fo : FetchOutcome) : list StreamChunk.t :=
  match fo with Body inps => consumed inps | _ => [] end.

Definition turn_finish (fo : FetchOutcome) (s : ChatState.t) : ChatState.t :=
  match fo with Body inps => finish (loop_end inps) s | _ => stream_turn s fo end.

(** The text a chunk appends to the assistant message. *)
Definition content_of (ch : StreamChunk.t) : string :=
  match StreamChunk.type ch with
  | StreamChunk.content => js_or (StreamChunk.content_ ch) ""
  | _ => ""
  end.

Fixpoint content_in (chs : list StreamChunk.t) : string :=
  match chs with [] => "" | ch :: r => content_of ch +:+ content_in r end.

Definition is_done (ch : StreamChunk.t) : bool :=
  match StreamChunk.type ch with StreamChunk.done => true | _ => false end.

Definition is_error_chunk (ch : StreamChunk.t) : bool :=
  match StreamChunk.type ch with StreamChunk.error => true | _ => false end.

(** The session id of the last [done] event that carries a non-empty one. *)
Fixpoint last_done_session (chs : list StreamChunk.t) : option string :=
  match chs with
  | [] => None
  | ch :: r =>
      match last_done_session r with
      | Some x => Some x
      | None => if is_done ch && truthy (StreamChunk.session_id ch)
                then StreamChunk.session_id ch else None
      end
  end.

(** The message of the last [error] event. *)
Fixpoint last_error (chs : list StreamChunk.t) : option string :=
  match chs with
  | [] => None
  | ch :: r =>
      match last_error r with
      | Some x => Some x
      | None => if is_error_chunk ch
                then Some (js_or (StreamChunk.error_ ch) "Unknown error") else None
      end
  end.

(** The assistant message of the turn, last after [pre], and where the
    citations it shows come from: none ([null]) while no [done] updater
    stored the [collectedCitations] array, that array itself once one did. *)
Definition asst_inv (pre : list ChatMessage.t) (ts : Turn * ChatState.t)
    (a : ChatMessage.t) : Prop :=
  ChatState.messages ts.2 = pre ++ [a]
  /\ ChatMessage.role a = assistant
  /\ ChatMessage.is_refusal a = false
  /\ ((alias ts.1 = None /\ ChatMessage.citations a = None)
      \/ (alias ts.1 = Some (length pre) /\ collected ts.1 <> []
          /\ ChatMessage.citations a = Some (collected ts.1))).

(** What the loop goes through before it leaves: the chunks it parses and
    the renders of React while it waits, in order. *)
Inductive Ev := EvChunk (ch : StreamChunk.t) | EvRender.

Fixpoint loop_events (inps : list Inp) : list Ev :=
  match inps with
  | Read ls :: rest => map EvChunk (omap line_chunk ls) ++ loop_events rest
  | Render :: rest => EvRender :: loop_events rest
  | _ => []
  end.

Definition turn_events (fo : FetchOutcome) : list Ev :=
  match fo with Body inps => loop_events inps | _ => [] end.

Definition ev_chunk (e : Ev) : option StreamChunk.t :=
  match e with EvChunk ch => Some ch | EvRender => None end.

Definition ev_chunks (evs : list Ev) : list StreamChunk.t := omap ev_chunk evs.

Definition ev_is_done (e : Ev) : bool :=
  match e with EvChunk ch => is_done ch | EvRender => false end.

Definition ev_is_render (e : Ev) : bool :=
  match e with EvChunk _ => false | EvRender => true end.

Fixpoint run_events (h : Hook) (evs : list Ev) : Hook :=
  match evs with
  | [] => h
  | EvChunk ch :: rest => run_events (dispatch h ch) rest
  | EvRender :: rest => run_events (render h) rest
  end.

(** The chunks for which the loop queues an updater. *)
Definition queued (ch : StreamChunk.t) : bool :=
  match StreamChunk.type ch with
  | StreamChunk.content => truthy (StreamChunk.content_ ch)
  | StreamChunk.citation =>
      match StreamChunk.citation_ ch with Some _ => true | None => false end
  | _ => true
  end.

Definition is_citation_chunk (ch : StreamChunk.t) : bool :=
  match StreamChunk.type ch with StreamChunk.citation => true | _ => false end.

(** A field after the updaters of [chs] ran on the value [o]. *)
Definition sess_after (o : option string) (chs : list StreamChunk.t) : option string :=
  match last_done_session chs with Some x => Some x | None => o end.

Definition err_after (o : option string) (chs : list StreamChunk.t) : option string :=
  match last_error chs with Some x => Some x | None => o end.

Definition stream_after (b : bool) (chs : list StreamChunk.t) : bool :=
  if existsb (fun ch => is_done ch || is_error_chunk ch) chs then false else b.

(** The state after the two [setState] calls of [sendMessage]. *)
Definition turn_start (s : ChatState.t) (text : string) : ChatState.t :=
  ChatState.mk ((ChatState.messages s ++ [user_message text]) ++ [assistant_placeholder])
    [] (ChatState.sessionId s) true None.

(** The hook after the loop parsed the chunks [chs] of a turn that
    started in [s0]: the rendered assistant message and the queued
    updaters together account for every chunk. *)
Definition hook_inv (pre : list ChatMessage.t) (s0 : ChatState.t)
    (chs : list StreamChunk.t) (h : Hook) : Prop :=
  (exists a, asst_inv pre (turn h, committed h) a
     /\ ChatMessage.content a +:+ content_in (queue h) = content_in chs)
  /\ collected (turn h) = citations_in chs
  /\ (existsb is_citation_chunk (queue h) = false ->
      ChatState.citations (committed h) = collected (turn h))
  /\ sess_after (ChatState.sessionId (committed h)) (queue h)
     = sess_after (ChatState.sessionId s0) chs
  /\ err_after (ChatState.error (committed h)) (queue h) = err_after (ChatState.error s0) chs
  /\ stream_after (ChatState.isStreaming (committed h)) (queue h)
     = stream_after (ChatState.isStreaming s0) chs.

(** The hook at the end of a turn: the chunks and renders [evs] of the
    loop, then React's render once the call suspends or returns. *)
Definition turn_hook (s : ChatState.t) (text : string) (evs : list Ev) : Hook :=
  render (run_events (mkHook empty_turn (turn_start s text) []) evs).

(* ================================================================== *)
(** ** The chat input: [ChatInput] (src/unnamed/part_003) *)

(** [handleSend]: the text passed to [onSend], if any, and the value of
    the input box afterwards. *)
Definition handleSend (input : string) (isStreaming : bool) : option string * string :=
  if negb (String.eqb (trim input) "") && negb isStreaming
  then (Some (trim input), "")
  else (None, input).

(* ================================================================== *)
(** ** Formatting helpers: [src/frontend/src/lib/format.ts] *)

(** [truncate(str, maxLen)]; its callers pass non-negative integer
    lengths (200, 60). *)
Definition truncate (str : string) (maxLen : nat) : string :=
  if Nat.leb (String.length str) maxLen then str
  else String.substring 0 maxLen str +:+ "...".

(** [shortId(id)]: [id.slice(0, 8)]. *)
Definition shortId (id : string) : string := String.substring 0 8 id.

(* ================================================================== *)
(** ** Plain JavaScript objects used as records *)

(** The properties every object literal inherits from [Object.prototype]:
    reading [o[k]] for one of these keys on an object without an own
    property [k] yields a function or an object, not [undefined]. *)
Definition object_proto_keys : list string :=
  ["constructor"; "__defineGetter__"; "__defineSetter__"; "hasOwnProperty";
   "__lookupGetter__"; "__lookupSetter__"; "isPrototypeOf";
   "propertyIsEnumerable"; "toString"; "valueOf"; "__proto__";
   "toLocaleString"].

Definition is_proto_key (k : string) : bool :=
  existsb (String.eqb k) object_proto_keys.

(** A value of the [counts] record: a number, or any other value (an
    inherited function or object, or the string [+ 1] makes of it). *)
Inductive JsVal := JNum (n : nat) | JOther.

(** [counts[k]] on a record built from [{}]. *)
Definition js_get (o : gmap string JsVal) (k : string) : option JsVal :=
  match o !! k with
  | Some v => Some v
  | None => if is_proto_key k then Some JOther else None
  end.

(** [counts[k] = v]; assigning a primitive to [__proto__] is ignored. *)
Definition js_set (o : gmap string JsVal) (k : string) (v : JsVal)
  : gmap string JsVal :=
  if String.eqb k "__proto__" then o else <[k := v]> o.

(** [(counts[k] ?? 0) + 1]; [+ 1] on a function or object concatenates. *)
Definition count_incr (o : gmap string JsVal) (k : string) : JsVal :=
  match js_get o k with
  | None => JNum 1
  | Some (JNum n) => JNum (S n)
  | Some JOther => JOther
  end.

(** [counts[n] > 1]: a non-numeric string compares as [NaN]. *)
Definition gt_one (v : option JsVal) : bool :=
  match v with Some (JNum n) => Nat.ltb 1 n | _ => false end.

(* ================================================================== *)
(** ** The documents page: [src/frontend/src/features/corpus] *)

(** The [duplicateNames] memo of [DocumentTable]: the [forEach] filling
    [counts], then [Object.keys(counts).filter((n) => counts[n] > 1)]. *)
Definition count_names (docs : list DocumentResponse.t) : gmap string JsVal :=
  foldl (fun counts d =>
           js_set counts (DocumentResponse.original_filename d)
             (count_incr counts (DocumentResponse.original_filename d)))
    ∅ docs.

Definition duplicateNames (docs : list DocumentResponse.t) : gset string :=
  let counts := count_names docs in
  list_to_set (List.filter (fun n => gt_one (js_get counts n))
                 (map fst (map_to_list counts))).

(** How many listed documents have the original filename [n]. *)
Definition name_count (docs : list DocumentResponse.t) (n : string) : nat :=
  length (List.filter (fun d => String.eqb (DocumentResponse.original_filename d) n) docs).

Module CorpusFigures.
Record t := mk {
    totalDocs : nat;
    completedDocs : nat;
    failedDocs : nat;
    totalChunks : Z;
    totalSize : Z
  }.
End CorpusFigures.

(** The figures [CorpusStats] computes from [data?.documents ?? []]. *)
Definition CorpusStats (data : option (list DocumentResponse.t)) : CorpusFigures.t :=
  let docs := default [] data in
  CorpusFigures.mk (length docs)
    (length (List.filter (fun d => String.eqb (DocumentResponse.status d) "completed") docs))
    (length (List.filter (fun d => String.eqb (DocumentResponse.status d) "failed") docs))
    (foldl (fun sum d => sum + DocumentResponse.chunk_count d) 0 docs)
    (foldl (fun sum d => sum + DocumentResponse.file_size d) 0 docs).

(** [handleFile] only warns about the first document with the name of the
    file; whether there is one. *)
Definition has_same_name (docData : option (list DocumentResponse.t)) (file : File.t)
  : bool :=
  match docData with
  | Some docs => existsb (fun d => String.eqb
                   (DocumentResponse.original_filename d) (File.name file)) docs
  | None => false
  end.

(* ================================================================== *)
(** ** The status badge: [src/frontend/src/components/shared/status-badge.tsx] *)

Module BadgeConfig.
Record t := mk { className : option string; label : option string }.
End BadgeConfig.

Definition statusConfig : list (string * BadgeConfig.t) :=
  [("completed", BadgeConfig.mk (Some "bg-ok/10 text-ok") None);
   ("success", BadgeConfig.mk (Some "bg-ok/10 text-ok") None);
   ("passed", BadgeConfig.mk (Some "bg-ok/10 text-ok") None);
   ("healthy", BadgeConfig.mk (Some "bg-ok/10 text-ok") None);
   ("failed", BadgeConfig.mk (Some "bg-destructive/10 text-destructive") None);
   ("error", BadgeConfig.mk (Some "bg-destructive/10 text-destructive") None);
   ("pending", BadgeConfig.mk (Some "bg-warning/10 text-warning") None);
   ("running", BadgeConfig.mk (Some "bg-warning/10 text-warning") None);
   ("processing", BadgeConfig.mk (Some "bg-warning/10 text-warning") None);
   ("cancelled", BadgeConfig.mk (Some "bg-muted text-muted-foreground") None)].

(** [statusConfig[status.toLowerCase()] ?? { className: ... }]; an
    inherited member of [Object.prototype] is found too, and has neither
    a [className] nor a [label]. *)
Definition badge_config (status : string) : BadgeConfig.t :=
  let key := toLowerCase status in
  match List.find (fun p => String.eqb p.1 key) statusConfig with
  | Some p => p.2
  | None =>
      if is_proto_key key then BadgeConfig.mk None None
      else BadgeConfig.mk (Some "bg-muted text-muted-foreground") None
  end.

(** The text of the badge: [config.label ?? status]. *)
Definition badge_text (status : string) : string :=
  default status (BadgeConfig.label (badge_config status)).

(* ================================================================== *)
(** ** The new-evaluation form: [NewEvalForm] *)

Module EvalRunRequest.
Record t := mk { name : string; description : option string; dataset_name : string }.
End EvalRunRequest.

(** [handleSubmit]: the request passed to [createRun.mutate], if any. *)
Definition handleSubmit (name dataset : string) : option EvalRunRequest.t :=
  if String.eqb (trim name) "" || String.eqb dataset "" then None
  else Some (EvalRunRequest.mk (trim name) None dataset).

(** The [disabled] attribute of the submit button. *)
Definition submit_disabled (name dataset : string) (isPending : bool) : bool :=
  String.eqb (trim name) "" || String.eqb dataset "" || isPending.

(* ================================================================== *)
(** ** More sample inputs *)

(** A stream that goes on after its [done] event: a citation and a
    content delta arrive after it. *)
Definition stream_past_done : FetchOutcome :=
  Body [Read [DataLine (Some (mk_content "Hel")); DataLine (Some (mk_citation_chunk cit1))];
        Render;
        Read [DataLine (Some (mk_done (Some "sess"))); OtherLine;
              DataLine (Some (mk_citation_chunk cit2)); DataLine (Some (mk_content "lo"))];
        Eof].

(** A stream with an [error] event that is read on until the body fails. *)
Definition stream_error_then_fail : FetchOutcome :=
  Body [Read [DataLine (Some (mk_content "a"));
              DataLine (Some (StreamChunk.mk StreamChunk.error None None (Some "boom") None None))];
        Render;
        Read [DataLine (Some (mk_content "b"))]; ReadFail "network error"].

(** A candidate of the evidence, the evidence of two candidates, and a
    stream the synthesizer produces for them: text, a citation of the
    first candidate, then [done], read in two batches. *)
Definition rc_alpha : RetrievedCandidate.t :=
  RetrievedCandidate.mk (Chunk.mk 11 1 "a.pdf" 0 "alpha" None) 90 0.

Definition evidence_ab : list RetrievedCandidate.t :=
  [rc_alpha; RetrievedCandidate.mk (Chunk.mk 12 1 "a.pdf" 1 "beta" None) 80 1].

Definition grounded_stream : list Inp :=
  [Read [DataLine (Some (mk_content "alpha "));
         DataLine (Some (mk_citation_chunk (citation_of rc_alpha)))];
   Render;
   Read [DataLine (Some (mk_done (Some "sess")))];
   Eof].

(** A stream whose only citation event comes after the [done] event, in
    the same read: the [done] updater runs at the next render, when the
    citation is already collected. *)
Definition stream_cite_after_done : list Inp :=
  [Read [DataLine (Some (mk_content "x")); DataLine (Some (mk_done (Some "sess")));
         DataLine (Some (mk_citation_chunk cit1))];
   Render;
   Read [DataLine (Some (mk_content "y"))];
   Eof].

(** Traces with ids longer than the eight characters the table shows. *)
Definition trace_long : TraceSummary.t :=
  TraceSummary.mk "4f9c2a71-8d3e-4b6a" (Some "7d21e0aa-93f0") 3 120 40 2 "success" None None.

Definition trace_other : TraceSummary.t :=
  TraceSummary.mk "0b7e5d13-2c4f-4a90" (Some "e5a0c3b8-11d2") 2 80 10 1 "success" None None.

(** The server's traces, each with the types of its events. *)
Definition trace_store : list (TraceSummary.t * list string) :=
  [(trace_long, ["retrieval"; "generation"]); (trace_other, ["retrieval"])].

(** A state after an earlier exchange that the non-streamed answer
    refused for lack of evidence. *)
Definition refused_history : ChatState.t :=
  ChatState.mk [user_message "old question"; answer [] (Answer [GText "x"])]
    [] (Some "sess") false None.

Definition doc_named (id : Z) (n : string) : DocumentResponse.t :=
  DocumentResponse.mk id n n "text/plain" 10 "completed" None 1 "" "".

(* ================================================================== *)
(** ** Sanity checks of the hook on small inputs *)

Example turn_example :
  chat_turn initial_state "hi" initial_state
    (Body [Read [DataLine (Some (mk_content "Hel")); OtherLine]; Render;
           Read [DataLine (Some (mk_content "lo")); DataLine None;
                 DataLine (Some (mk_citation_chunk cit1));
                 DataLine (Some (mk_done (Some "sess")))]; Eof])
  = ChatState.mk
      [user_message "hi";
       ChatMessage.mk assistant "Hello" (Some [cit1]) false None None]
      [cit1] (Some "sess") false None.
Proof. reflexivity. Qed.

Example trim_example : trim (String " " (String "009" "x ")) = "x".
Proof. reflexivity. Qed.

(* ================================================================== *)
(** ** Lemmas on the hook *)

Lemma sendMessage_guard (snap s : ChatState.t) (text : string) :
  String.eqb (trim text) "" || ChatState.isStreaming snap = true ->
  sendMessage snap text s = (None, s).
Proof. unfold sendMessage. intros ->. reflexivity. Qed.

Lemma run_loop_app_reads (h : Hook) (pre post : list Inp) :
  forallb is_read pre = true ->
  exists h', run_loop h (pre ++ post) = run_loop h' post
             /\ run_loop h pre = committed (render h').
Proof.
  revert h. induction pre as [|i pre IH]; intros h Hr.
  - exists h. split; reflexivity.
  - destruct i as [ls| | | |m]; try discriminate; cbn [forallb is_read andb] in Hr;
      cbn [app run_loop]; apply IH, Hr.
Qed.

(* ================================================================== *)
(** ** C9: the [sendMessage] guard *)

(** Claim C9. Calling [sendMessage] with blank text, or while streaming,
    leaves the state unchanged and issues no request; consequently at most
    one stream is in flight. The guard reads the [state] captured by the
    render that created the callback, so two calls made from one render
    both pass it: starting from the idle initial state, a first call
    issues a request and sets [isStreaming], and a second call from the
    same render still issues a second request. *)
Lemma sendMessage_same_render_two_streams :
  exists r1 r2 s1 s2,
    sendMessage initial_state "first" initial_state = (Some r1, s1)
    /\ ChatState.isStreaming s1 = true
    /\ sendMessage initial_state "second" s1 = (Some r2, s2)
    /\ ChatState.isStreaming s2 = true
    /\ length (ChatState.messages s2) = 4%nat.
Proof.
  do 4 eexists. split; [reflexivity|]. split; [reflexivity|].
  split; [reflexivity|]. split; reflexivity.
Qed.

(* ================================================================== *)
(** ** C4: [stopStreaming] *)

(** Claim C4. Aborting a streaming turn ([stopStreaming] while the hook
    waits on a read, or while it waits on the response) stops the loop:
    whatever the stream would still deliver is never consumed, the state
    is the one reached before the abort with [isStreaming = false], and
    the messages (the partial assistant content) are kept unchanged. *)
Theorem stopStreaming_keeps_partial (s : ChatState.t) (pre rest : list Inp) :
  forallb is_read pre = true ->
  let s_before := run_loop (mkHook empty_turn s []) pre in
  let s_after := stream_turn s (Body (pre ++ Stop :: rest)) in
  s_after = stop_streaming_flag s_before
  /\ ChatState.messages s_after = ChatState.messages s_before
  /\ ChatState.citations s_after = ChatState.citations s_before
  /\ ChatState.isStreaming s_after = false
  /\ stream_turn s FetchAborted = stop_streaming_flag s.
Proof.
  intros Hr s_before s_after.
  assert (E : s_after = stop_streaming_flag s_before).
  { unfold s_after, s_before. cbn [stream_turn].
    destruct (run_loop_app_reads (mkHook empty_turn s []) pre (Stop :: rest) Hr)
      as (h' & E1 & E2).
    rewrite E1, E2. reflexivity. }
  rewrite E. repeat split; reflexivity.
Qed.

Lemma stopStreaming_keeps_partial_witness :
  forallb is_read [Read [DataLine (Some (mk_content "Hel"))]; Render] = true
  /\ stream_turn (snd (sendMessage initial_state "q" initial_state))
       (Body ([Read [DataLine (Some (mk_content "Hel"))]; Render]
              ++ Stop :: [Read [DataLine (Some (mk_content "lo"))]; Eof]))
     = stop_streaming_flag
         (run_loop (mkHook empty_turn (snd (sendMessage initial_state "q" initial_state)) [])
            [Read [DataLine (Some (mk_content "Hel"))]; Render])
  /\ ChatState.messages (stream_turn (snd (sendMessage initial_state "q" initial_state))
       (Body ([Read [DataLine (Some (mk_content "Hel"))]; Render]
              ++ Stop :: [Read [DataLine (Some (mk_content "lo"))]; Eof])))
     = [user_message "q"; ChatMessage.mk assistant "Hel" None false None None].
Proof.
  split; [reflexivity|]. split; [|reflexivity].
  apply (stopStreaming_keeps_partial
           (snd (sendMessage initial_state "q" initial_state))
           [Read [DataLine (Some (mk_content "Hel"))]; Render]
           [Read [DataLine (Some (mk_content "lo"))]; Eof]).
  reflexivity.
Defined.

(* ================================================================== *)
(** ** Lemmas on the hook during a turn *)

Lemma str_app_cons (c : ascii) (x y : string) : String c x +:+ y = String c (x +:+ y).
Proof. reflexivity. Qed.

Lemma str_app_nil_r (x : string) : x +:+ "" = x.
Proof. induction x as [|c x IH]; [reflexivity| rewrite str_app_cons, IH; reflexivity]. Qed.

Lemma str_app_assoc (x y z : string) : x +:+ (y +:+ z) = (x +:+ y) +:+ z.
Proof.
  induction x as [|c x IH]; [reflexivity|]. rewrite !str_app_cons, IH. reflexivity.
Qed.

Lemma lookup_last_app {A} (pre : list A) (a : A) :
  (pre ++ [a]) !! (length (pre ++ [a]) - 1)%nat = Some a.
Proof.
  rewrite length_app. simpl. apply list_lookup_middle. lia.
Qed.

Lemma insert_last_app {A} (pre : list A) (a x : A) :
  <[length pre := x]> (pre ++ [a]) = pre ++ [x].
Proof.
  rewrite insert_app_r_alt by lia. rewrite Nat.sub_diag. reflexivity.
Qed.

Lemma update_last_assistant_app f pre a :
  ChatMessage.role a = assistant ->
  update_last_assistant f (pre ++ [a]) = pre ++ [f a].
Proof.
  intros Hr. unfold update_last_assistant. rewrite lookup_last_app, Hr.
  simpl. rewrite length_app. simpl.
  replace (length pre + 1 - 1)%nat with (length pre) by lia.
  apply insert_last_app.
Qed.

Lemma js_or_not_truthy (o : option string) : truthy o = false -> js_or o "" = "".
Proof.
  destruct o as [x|]; simpl; [|reflexivity].
  destruct (String.eqb x "") eqn:E; simpl; [reflexivity| discriminate].
Qed.

(** Chunk sequences. *)
Lemma content_in_app (chs1 chs2 : list StreamChunk.t) :
  content_in (chs1 ++ chs2) = content_in chs1 +:+ content_in chs2.
Proof.
  induction chs1 as [|ch chs1 IH]; cbn [app content_in]; [reflexivity|].
  rewrite IH. apply str_app_assoc.
Qed.

Lemma citations_in_app (chs1 chs2 : list StreamChunk.t) :
  citations_in (chs1 ++ chs2) = citations_in chs1 ++ citations_in chs2.
Proof. unfold citations_in. apply omap_app. Qed.

Lemma citations_in_one (ch : StreamChunk.t) :
  citations_in [ch]
  = match StreamChunk.type ch with
    | StreamChunk.citation =>
        match StreamChunk.citation_ ch with Some c => [c] | None => [] end
    | _ => []
    end.
Proof.
  unfold citations_in. simpl.
  destruct (StreamChunk.type ch); try destruct (StreamChunk.citation_ ch); reflexivity.
Qed.

Lemma citations_in_done (d : StreamChunk.t) : is_done d = true -> citations_in [d] = [].
Proof. unfold is_done. rewrite citations_in_one. destruct (StreamChunk.type d); easy. Qed.

Lemma citations_in_ok (P : Citation.t -> Prop) (chs : list StreamChunk.t) :
  Forall (chunk_ok P) chs -> Forall P (citations_in chs).
Proof.
  induction chs as [|ch chs IH]; intros H; [constructor|].
  apply Forall_cons in H as [H1 H2].
  change (ch :: chs) with ([ch] ++ chs). rewrite citations_in_app, citations_in_one.
  apply Forall_app. split; [|apply IH, H2].
  destruct (StreamChunk.type ch); try constructor.
  destruct (StreamChunk.citation_ ch) as [c|] eqn:Ec; constructor; [apply H1, Ec| constructor].
Qed.

Lemma last_done_session_app (chs1 chs2 : list StreamChunk.t) :
  last_done_session (chs1 ++ chs2)
  = match last_done_session chs2 with
    | Some x => Some x
    | None => last_done_session chs1
    end.
Proof.
  induction chs1 as [|ch chs1 IH]; cbn [app last_done_session].
  - destruct (last_done_session chs2); reflexivity.
  - rewrite IH. destruct (last_done_session chs2); reflexivity.
Qed.

Lemma last_error_app (chs1 chs2 : list StreamChunk.t) :
  last_error (chs1 ++ chs2)
  = match last_error chs2 with
    | Some x => Some x
    | None => last_error chs1
    end.
Proof.
  induction chs1 as [|ch chs1 IH]; cbn [app last_error].
  - destruct (last_error chs2); reflexivity.
  - rewrite IH. destruct (last_error chs2); reflexivity.
Qed.

Lemma sess_after_app (o : option string) (chs1 chs2 : list StreamChunk.t) :
  sess_after o (chs1 ++ chs2) = sess_after (sess_after o chs1) chs2.
Proof.
  unfold sess_after. rewrite last_done_session_app.
  destruct (last_done_session chs2), (last_done_session chs1); reflexivity.
Qed.

Lemma err_after_app (o : option string) (chs1 chs2 : list StreamChunk.t) :
  err_after o (chs1 ++ chs2) = err_after (err_after o chs1) chs2.
Proof.
  unfold err_after. rewrite last_error_app.
  destruct (last_error chs2), (last_error chs1); reflexivity.
Qed.

Lemma stream_after_app (b : bool) (chs1 chs2 : list StreamChunk.t) :
  stream_after b (chs1 ++ chs2) = stream_after (stream_after b chs1) chs2.
Proof.
  unfold stream_after. rewrite existsb_app.
  destruct (existsb _ chs1), (existsb _ chs2); reflexivity.
Qed.

Lemma sess_after_skip (o : option string) (ch : StreamChunk.t) :
  is_done ch = false -> sess_after o [ch] = o.
Proof. intros Hd. unfold sess_after. cbn [last_done_session]. rewrite Hd. reflexivity. Qed.

Lemma err_after_skip (o : option string) (ch : StreamChunk.t) :
  is_error_chunk ch = false -> err_after o [ch] = o.
Proof. intros He. unfold err_after. cbn [last_error]. rewrite He. reflexivity. Qed.

Lemma stream_after_skip (b : bool) (ch : StreamChunk.t) :
  is_done ch = false -> is_error_chunk ch = false -> stream_after b [ch] = b.
Proof. intros Hd He. unfold stream_after. cbn [existsb]. rewrite Hd, He. reflexivity. Qed.

Lemma is_done_type (ch : StreamChunk.t) :
  is_done ch = true -> StreamChunk.type ch = StreamChunk.done.
Proof. unfold is_done. destruct (StreamChunk.type ch); easy. Qed.

(** One updater, as React runs it. *)
Lemma run_updater_fields (t : Turn) (s : ChatState.t) (ch : StreamChunk.t) :
  collected (run_updater t s ch).1 = collected t
  /\ ChatState.citations (run_updater t s ch).2
     = (if is_citation_chunk ch then collected t else ChatState.citations s)
  /\ ChatState.sessionId (run_updater t s ch).2 = sess_after (ChatState.sessionId s) [ch]
  /\ ChatState.error (run_updater t s ch).2 = err_after (ChatState.error s) [ch]
  /\ ChatState.isStreaming (run_updater t s ch).2
     = stream_after (ChatState.isStreaming s) [ch].
Proof.
  unfold sess_after, err_after, stream_after. cbn [last_done_session last_error existsb].
  unfold run_updater, is_citation_chunk, is_done, is_error_chunk, js_or_opt.
  destruct (StreamChunk.type ch); cbn.
  - repeat split.
  - repeat split.
  - split; [reflexivity|]. split; [reflexivity|]. split; [|split; reflexivity].
    destruct (StreamChunk.session_id ch) as [x|]; cbn; [destruct (negb _)|]; reflexivity.
  - repeat split.
Qed.

Lemma run_updater_asst (pre : list ChatMessage.t) (t : Turn) (s : ChatState.t)
    (a : ChatMessage.t) (ch : StreamChunk.t) :
  asst_inv pre (t, s) a ->
  exists a', asst_inv pre (run_updater t s ch) a'
    /\ ChatMessage.content a' = ChatMessage.content a +:+ content_of ch
    /\ alias (run_updater t s ch).1
       = (if is_done ch
          then match collected t with [] => alias t | _ => Some (length pre) end
          else alias t).
Proof.
  intros (Hm & Hr & Hf & Hal). cbn [fst snd] in Hm, Hal.
  unfold run_updater, content_of, is_done.
  destruct (StreamChunk.type ch).
  - exists (with_content a (ChatMessage.content a +:+ js_or (StreamChunk.content_ ch) "")).
    cbn [fst snd]. unfold set_messages. rewrite Hm, update_last_assistant_app by exact Hr.
    split; [|split; reflexivity]. split; [reflexivity|]. simpl. auto.
  - exists a. rewrite str_app_nil_r. split; [|split; reflexivity].
    split; [exact Hm|]. simpl. auto.
  - rewrite str_app_nil_r. cbn [fst snd]. rewrite Hm, lookup_last_app, Hr. simpl.
    rewrite update_last_assistant_app by exact Hr.
    exists (with_citations a
      (if match collected t with [] => false | _ => true end
       then Some (collected t) else None)).
    destruct (collected t) as [|c cs] eqn:Ec; simpl.
    + split; [|split; reflexivity].
      split; [reflexivity|]. split; [exact Hr|]. split; [exact Hf|].
      destruct Hal as [Ha | (_ & Hne & _)]; [left; split; [apply Ha| reflexivity]| congruence].
    + assert (El : (length (pre ++ [a]) - 1)%nat = length pre)
        by (rewrite length_app; simpl; lia).
      rewrite El. split; [|split; reflexivity].
      split; [reflexivity|]. split; [exact Hr|]. split; [exact Hf|].
      right. split; [reflexivity|]. split; [discriminate| reflexivity].
  - exists a. rewrite str_app_nil_r. split; [|split; reflexivity].
    split; [exact Hm|]. simpl. auto.
Qed.

(** The queue of updaters, run in order at a render. *)
Lemma run_updaters_cons (ts : Turn * ChatState.t) (ch : StreamChunk.t) q :
  run_updaters ts (ch :: q) = run_updaters (run_updater ts.1 ts.2 ch) q.
Proof. reflexivity. Qed.

Lemma run_updaters_fields (t : Turn) (s : ChatState.t) (q : list StreamChunk.t) :
  collected (run_updaters (t, s) q).1 = collected t
  /\ ChatState.citations (run_updaters (t, s) q).2
     = (if existsb is_citation_chunk q then collected t else ChatState.citations s)
  /\ ChatState.sessionId (run_updaters (t, s) q).2 = sess_after (ChatState.sessionId s) q
  /\ ChatState.error (run_updaters (t, s) q).2 = err_after (ChatState.error s) q
  /\ ChatState.isStreaming (run_updaters (t, s) q).2
     = stream_after (ChatState.isStreaming s) q.
Proof.
  revert t s. induction q as [|ch q IH]; intros t s.
  - repeat split.
  - rewrite run_updaters_cons. cbn [fst snd].
    destruct (run_updater_fields t s ch) as (E1 & E2 & E3 & E4 & E5).
    destruct (run_updater t s ch) as [t1 s1] eqn:Eu. cbn [fst snd] in *.
    destruct (IH t1 s1) as (F1 & F2 & F3 & F4 & F5).
    rewrite F1, E1. split; [reflexivity|]. split.
    + rewrite F2, E1, E2. cbn [existsb].
      destruct (is_citation_chunk ch), (existsb is_citation_chunk q); reflexivity.
    + change (ch :: q) with ([ch] ++ q).
      rewrite sess_after_app, err_after_app, stream_after_app, F3, F4, F5, E3, E4, E5.
      auto.
Qed.

Lemma run_updaters_asst (pre : list ChatMessage.t) (t : Turn) (s : ChatState.t)
    (a : ChatMessage.t) (q : list StreamChunk.t) :
  asst_inv pre (t, s) a ->
  exists a', asst_inv pre (run_updaters (t, s) q) a'
    /\ ChatMessage.content a' = ChatMessage.content a +:+ content_in q
    /\ alias (run_updaters (t, s) q).1
       = (if existsb is_done q
          then match collected t with [] => alias t | _ => Some (length pre) end
          else alias t).
Proof.
  revert t s a. induction q as [|ch q IH]; intros t s a Hi.
  - exists a. split; [exact Hi|]. split; [symmetry; apply str_app_nil_r| reflexivity].
  - rewrite run_updaters_cons. cbn [fst snd].
    destruct (run_updater_asst pre t s a ch Hi) as (a1 & Hi1 & Hc1 & Ha1).
    destruct (run_updater_fields t s ch) as (E1 & _).
    destruct (run_updater t s ch) as [t1 s1] eqn:Eu. cbn [fst snd] in *.
    destruct (IH t1 s1 a1 Hi1) as (a2 & Hi2 & Hc2 & Ha2).
    exists a2. split; [exact Hi2|]. split.
    + rewrite Hc2, Hc1. cbn [content_in]. symmetry. apply str_app_assoc.
    + rewrite Ha2, Ha1, E1. cbn [existsb].
      destruct (is_done ch), (existsb is_done q), (collected t); reflexivity.
Qed.

(** [collectedCitations.push], seen through the message that holds the
    array. *)
Lemma push_citation_asst (pre : list ChatMessage.t) (t : Turn) (s : ChatState.t)
    (a : ChatMessage.t) (c : Citation.t) :
  asst_inv pre (t, s) a ->
  exists a', asst_inv pre (push_citation t s c) a'
    /\ ChatMessage.content a' = ChatMessage.content a.
Proof.
  intros (Hm & Hr & Hf & Hal). cbn [fst snd] in Hm, Hal. unfold push_citation.
  destruct Hal as [(Ha & Hc) | (Ha & Hne & Hc)]; rewrite Ha.
  - exists a. split; [|reflexivity]. split; [exact Hm|]. simpl. auto.
  - rewrite Hm, list_lookup_middle by reflexivity. rewrite insert_last_app.
    exists (with_citations a (Some (collected t ++ [c]))). split; [|reflexivity].
    split; [reflexivity|]. simpl. split; [exact Hr|]. split; [exact Hf|].
    right. split; [reflexivity|]. split; [|reflexivity].
    destruct (collected t); discriminate.
Qed.

(** The invariant of the hook: one chunk parsed, one render. *)
Lemma hook_inv_enqueue pre s0 chs (h : Hook) (ch : StreamChunk.t) :
  hook_inv pre s0 chs h -> citations_in [ch] = [] ->
  hook_inv pre s0 (chs ++ [ch]) (mkHook (turn h) (committed h) (queue h ++ [ch])).
Proof.
  intros ((a & Ha & Hc) & Hcol & Hpan & Hs & He & Hst) Hci. unfold hook_inv; cbn [turn committed queue].
  split; [|split; [|split; [|split; [|split]]]].
  - exists a. split; [exact Ha|]. rewrite !content_in_app, str_app_assoc, Hc. reflexivity.
  - rewrite citations_in_app, Hci, app_nil_r. exact Hcol.
  - intros Hq. apply Hpan. rewrite existsb_app in Hq. apply orb_false_iff in Hq as [Hq _].
    exact Hq.
  - rewrite !sess_after_app, Hs. reflexivity.
  - rewrite !err_after_app, He. reflexivity.
  - rewrite !stream_after_app, Hst. reflexivity.
Qed.

Lemma hook_inv_skip pre s0 chs (h : Hook) (ch : StreamChunk.t) :
  hook_inv pre s0 chs h ->
  content_of ch = "" -> citations_in [ch] = [] ->
  is_done ch = false -> is_error_chunk ch = false ->
  hook_inv pre s0 (chs ++ [ch]) h.
Proof.
  intros ((a & Ha & Hc) & Hcol & Hpan & Hs & He & Hst) Hco Hci Hd Her.
  split; [|split; [|split; [|split; [|split]]]].
  - exists a. split; [exact Ha|]. rewrite content_in_app, <- Hc. cbn [content_in].
    rewrite Hco. simpl. rewrite str_app_nil_r. reflexivity.
  - rewrite citations_in_app, Hci, app_nil_r. exact Hcol.
  - exact Hpan.
  - rewrite sess_after_app, sess_after_skip by exact Hd. exact Hs.
  - rewrite err_after_app, err_after_skip by exact Her. exact He.
  - rewrite stream_after_app, stream_after_skip by assumption. exact Hst.
Qed.

Lemma hook_inv_dispatch pre s0 chs (h : Hook) (ch : StreamChunk.t) :
  hook_inv pre s0 chs h -> hook_inv pre s0 (chs ++ [ch]) (dispatch h ch).
Proof.
  intros Hi. unfold dispatch.
  destruct (StreamChunk.type ch) eqn:E.
  - destruct (truthy (StreamChunk.content_ ch)) eqn:Et.
    + apply hook_inv_enqueue; [exact Hi|]. rewrite citations_in_one, E. reflexivity.
    + apply hook_inv_skip; [exact Hi| | | |].
      * unfold content_of. rewrite E. apply js_or_not_truthy. exact Et.
      * rewrite citations_in_one, E. reflexivity.
      * unfold is_done. rewrite E. reflexivity.
      * unfold is_error_chunk. rewrite E. reflexivity.
  - destruct (StreamChunk.citation_ ch) as [c|] eqn:Ec.
    + destruct Hi as ((a & Ha & Hc) & Hcol & Hpan & Hs & He & Hst).
      destruct (push_citation_asst _ _ _ _ c Ha) as (a' & Ha' & Hc').
      unfold hook_inv; cbn [turn committed queue].
      split; [|split; [|split; [|split; [|split]]]].
      * exists a'. split; [exact Ha'|].
        rewrite Hc', !content_in_app, str_app_assoc, Hc. reflexivity.
      * change (collected (push_citation (turn h) (committed h) c).1)
          with (collected (turn h) ++ [c]).
        rewrite Hcol, citations_in_app, citations_in_one, E, Ec. reflexivity.
      * intros Hq. rewrite existsb_app in Hq. cbn [existsb] in Hq.
        unfold is_citation_chunk in Hq. rewrite E in Hq.
        rewrite orb_false_r, orb_true_r in Hq. discriminate.
      * change (ChatState.sessionId (push_citation (turn h) (committed h) c).2)
          with (ChatState.sessionId (committed h)).
        rewrite !sess_after_app, Hs. reflexivity.
      * change (ChatState.error (push_citation (turn h) (committed h) c).2)
          with (ChatState.error (committed h)).
        rewrite !err_after_app, He. reflexivity.
      * change (ChatState.isStreaming (push_citation (turn h) (committed h) c).2)
          with (ChatState.isStreaming (committed h)).
        rewrite !stream_after_app, Hst. reflexivity.
    + apply hook_inv_skip; [exact Hi| | | |].
      * unfold content_of. rewrite E. reflexivity.
      * rewrite citations_in_one, E, Ec. reflexivity.
      * unfold is_done. rewrite E. reflexivity.
      * unfold is_error_chunk. rewrite E. reflexivity.
  - apply hook_inv_enqueue; [exact Hi|]. rewrite citations_in_one, E. reflexivity.
  - apply hook_inv_enqueue; [exact Hi|]. rewrite citations_in_one, E. reflexivity.
Qed.

Lemma hook_inv_render pre s0 chs (h : Hook) :
  hook_inv pre s0 chs h ->
  hook_inv pre s0 chs (render h)
  /\ queue (render h) = []
  /\ alias (turn (render h))
     = (if existsb is_done (queue h)
        then match collected (turn h) with [] => alias (turn h) | _ => Some (length pre) end
        else alias (turn h)).
Proof.
  intros ((a & Ha & Hc) & Hcol & Hpan & Hs & He & Hst).
  destruct (run_updaters_asst pre (turn h) (committed h) a (queue h) Ha)
    as (a' & Ha' & Hc' & Hal).
  destruct (run_updaters_fields (turn h) (committed h) (queue h))
    as (F1 & F2 & F3 & F4 & F5).
  unfold render. unfold hook_inv; cbn [turn committed queue].
  split; [|split; [reflexivity| exact Hal]].
  split; [|split; [|split; [|split; [|split]]]].
  - exists a'. split; [exact Ha'|]. cbn [content_in].
    rewrite str_app_nil_r, Hc'. exact Hc.
  - rewrite F1. exact Hcol.
  - intros _. rewrite F2, F1.
    destruct (existsb is_citation_chunk (queue h)) eqn:Eq; [reflexivity|].
    apply Hpan. reflexivity.
  - rewrite <- Hs, <- F3. reflexivity.
  - rewrite <- He, <- F4. reflexivity.
  - rewrite <- Hst, <- F5. reflexivity.
Qed.

Lemma hook_inv_start (s : ChatState.t) (text : string) :
  hook_inv (ChatState.messages s ++ [user_message text]) (turn_start s text) []
    (mkHook empty_turn (turn_start s text) []).
Proof.
  split; [|split; [reflexivity| split; [intros _; reflexivity| repeat split]]].
  exists assistant_placeholder. split; [|reflexivity].
  split; [reflexivity|]. split; [reflexivity|]. split; [reflexivity|].
  left. split; reflexivity.
Qed.

Lemma hook_inv_final pre s0 chs (h : Hook) :
  hook_inv pre s0 chs h -> queue h = [] ->
  (exists a, asst_inv pre (turn h, committed h) a /\ ChatMessage.content a = content_in chs)
  /\ collected (turn h) = citations_in chs
  /\ ChatState.citations (committed h) = citations_in chs
  /\ ChatState.sessionId (committed h) = sess_after (ChatState.sessionId s0) chs
  /\ ChatState.error (committed h) = err_after (ChatState.error s0) chs
  /\ ChatState.isStreaming (committed h) = stream_after (ChatState.isStreaming s0) chs.
Proof.
  intros ((a & Ha & Hc) & Hcol & Hpan & Hs & He & Hst) Hq. rewrite Hq in *.
  split; [exists a; split; [exact Ha|]; rewrite <- Hc; symmetry; apply str_app_nil_r|].
  split; [exact Hcol|]. split; [rewrite Hpan by reflexivity; exact Hcol|].
  split; [exact Hs|]. split; [exact He| exact Hst].
Qed.

(** The events of the loop. *)
Lemma run_events_app (h : Hook) (evs1 evs2 : list Ev) :
  run_events h (evs1 ++ evs2) = run_events (run_events h evs1) evs2.
Proof.
  revert h. induction evs1 as [|[ch|] evs1 IH]; intros h; cbn [app run_events];
    [reflexivity| apply IH ..].
Qed.

Lemma ev_chunks_app (evs1 evs2 : list Ev) :
  ev_chunks (evs1 ++ evs2) = ev_chunks evs1 ++ ev_chunks evs2.
Proof. unfold ev_chunks. apply omap_app. Qed.

Lemma ev_chunks_map (chs : list StreamChunk.t) : ev_chunks (map EvChunk chs) = chs.
Proof. induction chs as [|ch chs IH]; [reflexivity|]. exact (f_equal (cons ch) IH). Qed.

Lemma forallb_no_done (evs : list Ev) :
  forallb (fun ch => negb (is_done ch)) (ev_chunks evs)
  = forallb (fun e => negb (ev_is_done e)) evs.
Proof. induction evs as [|[ch|] evs IH]; [reflexivity| exact (f_equal _ IH)| exact IH]. Qed.

Lemma hook_inv_run_events pre s0 chs (h : Hook) (evs : list Ev) :
  hook_inv pre s0 chs h -> hook_inv pre s0 (chs ++ ev_chunks evs) (run_events h evs).
Proof.
  revert chs h. induction evs as [|[ch|] evs IH]; intros chs h Hi; cbn [run_events].
  - rewrite app_nil_r. exact Hi.
  - change (ev_chunks (EvChunk ch :: evs)) with (ch :: ev_chunks evs).
    replace (chs ++ ch :: ev_chunks evs) with ((chs ++ [ch]) ++ ev_chunks evs)
      by (rewrite <- app_assoc; reflexivity).
    apply IH. apply hook_inv_dispatch. exact Hi.
  - change (ev_chunks (EvRender :: evs)) with (ev_chunks evs).
    apply IH. apply hook_inv_render. exact Hi.
Qed.

Lemma dispatch_alias (h : Hook) (ch : StreamChunk.t) :
  alias (turn (dispatch h ch)) = alias (turn h).
Proof.
  unfold dispatch. destruct (StreamChunk.type ch);
    [destruct (truthy _)| destruct (StreamChunk.citation_ ch)| |]; reflexivity.
Qed.

Lemma dispatch_queue (h : Hook) (ch : StreamChunk.t) :
  queue (dispatch h ch) = queue h ++ (if queued ch then [ch] else []).
Proof.
  unfold dispatch, queued. destruct (StreamChunk.type ch);
    [destruct (truthy _)| destruct (StreamChunk.citation_ ch)| |];
    cbn [queue]; rewrite ?app_nil_r; reflexivity.
Qed.

Lemma run_events_no_render (h : Hook) (evs : list Ev) :
  forallb (fun e => negb (ev_is_render e)) evs = true ->
  alias (turn (run_events h evs)) = alias (turn h)
  /\ (existsb is_done (queue h) = true -> existsb is_done (queue (run_events h evs)) = true).
Proof.
  revert h. induction evs as [|[ch|] evs IH]; intros h Hr; cbn [run_events];
    cbn [forallb ev_is_render negb andb] in Hr; [auto| |discriminate].
  destruct (IH (dispatch h ch) Hr) as [H1 H2]. rewrite H1, dispatch_alias.
  split; [reflexivity|]. intros Hd. apply H2.
  rewrite dispatch_queue, existsb_app, Hd. reflexivity.
Qed.

Lemma run_events_no_done pre s0 chs (h : Hook) (evs : list Ev) :
  hook_inv pre s0 chs h ->
  existsb is_done (queue h) = false ->
  forallb (fun e => negb (ev_is_done e)) evs = true ->
  alias (turn (run_events h evs)) = alias (turn h)
  /\ existsb is_done (queue (run_events h evs)) = false.
Proof.
  revert chs h. induction evs as [|[ch|] evs IH]; intros chs h Hi Hq Hn; cbn [run_events].
  - auto.
  - cbn [forallb ev_is_done] in Hn. apply andb_true_iff in Hn as [Hd Hn].
    apply negb_true_iff in Hd.
    destruct (IH (chs ++ [ch]) (dispatch h ch)) as [H1 H2].
    + apply hook_inv_dispatch. exact Hi.
    + rewrite dispatch_queue, existsb_app, Hq.
      destruct (queued ch); cbn [existsb]; rewrite ?Hd; reflexivity.
    + exact Hn.
    + rewrite H1, dispatch_alias. auto.
  - cbn [forallb ev_is_done negb andb] in Hn.
    destruct (hook_inv_render _ _ _ _ Hi) as (Hi' & Hq' & Ha'). rewrite Hq in Ha'.
    destruct (IH chs (render h) Hi') as [H1 H2]; [rewrite Hq'; reflexivity| exact Hn|].
    rewrite H1. auto.
Qed.

(** The loop: its events, then the statements after it. *)
Lemma apply_lines_events (h : Hook) (ls : list Line) :
  apply_lines h ls = run_events h (map EvChunk (omap line_chunk ls)).
Proof.
  unfold apply_lines. revert h.
  induction ls as [|[[ch|]|] ls IH]; intros h; cbn [foldl apply_line omap line_chunk];
    [reflexivity| apply IH ..].
Qed.

Lemma run_loop_events (h : Hook) (inps : list Inp) :
  run_loop h inps
  = finish (loop_end inps) (committed (render (run_events h (loop_events inps)))).
Proof.
  revert h. induction inps as [|i inps IH]; intros h; [reflexivity|].
  destruct i as [ls| | | |m]; cbn [run_loop loop_events loop_end]; try reflexivity.
  - rewrite IH, run_events_app, apply_lines_events. reflexivity.
  - rewrite IH. reflexivity.
Qed.

Lemma consumed_events (inps : list Inp) : consumed inps = ev_chunks (loop_events inps).
Proof.
  induction inps as [|[ls| | | |m] inps IH]; try reflexivity.
  - cbn [consumed loop_events]. rewrite ev_chunks_app, ev_chunks_map, IH. reflexivity.
  - exact IH.
Qed.

Lemma turn_chunks_events (fo : FetchOutcome) : turn_chunks fo = ev_chunks (turn_events fo).
Proof. destruct fo; try reflexivity. apply consumed_events. Qed.

Lemma consumed_delivered (inps : list Inp) (ch : StreamChunk.t) :
  In ch (consumed inps) -> In ch (flat_map inp_chunks inps).
Proof.
  induction inps as [|[ls| | | |m] inps IH]; cbn [consumed flat_map inp_chunks app];
    intros H; try (simpl in H; contradiction).
  - rewrite in_app_iff in H |- *. tauto.
  - tauto.
Qed.

Lemma loop_end_not_read (inps : list Inp) (i : Inp) :
  loop_end inps = Some i -> is_read i = false.
Proof.
  induction inps as [|j inps IH]; simpl; [discriminate|].
  destruct j; [exact IH| exact IH| intros H; injection H as <-; reflexivity ..].
Qed.

Lemma finish_not_streaming (e : option Inp) (s : ChatState.t) :
  ChatState.isStreaming s = false -> ChatState.isStreaming (finish e s) = false.
Proof. intros H. destruct e as [[| | | |]|]; exact H || reflexivity. Qed.

Lemma chat_turn_skip snap text s fo :
  String.eqb (trim text) "" || ChatState.isStreaming snap = true ->
  chat_turn snap text s fo = s.
Proof. intros H. unfold chat_turn. rewrite sendMessage_guard by exact H. reflexivity. Qed.

(** A whole turn: the last render of the hook, then the statements after
    the loop. *)
Lemma chat_turn_split (snap s : ChatState.t) (text : string) (fo : FetchOutcome) :
  String.eqb (trim text) "" = false ->
  ChatState.isStreaming snap = false ->
  chat_turn snap text s fo = turn_finish fo (committed (turn_hook s text (turn_events fo))).
Proof.
  intros Ht Hs. unfold chat_turn, sendMessage. rewrite Ht, Hs. cbn [orb].
  destruct fo as [|m|d st| |inps]; try reflexivity.
  cbn [stream_turn turn_finish turn_events]. apply run_loop_events.
Qed.

Lemma turn_hook_inv (s : ChatState.t) (text : string) (evs : list Ev) :
  hook_inv (ChatState.messages s ++ [user_message text]) (turn_start s text)
    (ev_chunks evs) (turn_hook s text evs)
  /\ queue (turn_hook s text evs) = [].
Proof.
  pose proof (hook_inv_run_events _ _ _ _ evs (hook_inv_start s text)) as H.
  cbn [app] in H. destruct (hook_inv_render _ _ _ _ H) as (H1 & H2 & _).
  split; assumption.
Qed.

Lemma chat_turn_final (snap s : ChatState.t) (text : string) (fo : FetchOutcome) :
  String.eqb (trim text) "" = false ->
  ChatState.isStreaming snap = false ->
  chat_turn snap text s fo = turn_finish fo (committed (turn_hook s text (turn_events fo)))
  /\ hook_inv (ChatState.messages s ++ [user_message text]) (turn_start s text)
       (turn_chunks fo) (turn_hook s text (turn_events fo))
  /\ queue (turn_hook s text (turn_events fo)) = [].
Proof.
  intros Ht Hs. split; [apply chat_turn_split; assumption|].
  rewrite turn_chunks_events. apply turn_hook_inv.
Qed.

Lemma turn_hook_no_done (s : ChatState.t) (text : string) (evs : list Ev) :
  forallb (fun e => negb (ev_is_done e)) evs = true ->
  alias (turn (turn_hook s text evs)) = None.
Proof.
  intros Hn. pose proof (hook_inv_start s text) as H0.
  destruct (run_events_no_done _ _ _ _ evs H0 eq_refl Hn) as [H1 H2].
  pose proof (hook_inv_run_events _ _ _ _ evs H0) as Hi.
  destruct (hook_inv_render _ _ _ _ Hi) as (_ & _ & Ha).
  unfold turn_hook. rewrite Ha, H2, H1. reflexivity.
Qed.

Lemma turn_finish_keeps (fo : FetchOutcome) (s : ChatState.t) :
  ChatState.messages (turn_finish fo s) = ChatState.messages s
  /\ ChatState.citations (turn_finish fo s) = ChatState.citations s
  /\ ChatState.sessionId (turn_finish fo s) = ChatState.sessionId s.
Proof.
  destruct fo as [|m|d st| |inps]; simpl; auto.
  destruct (loop_end inps) as [[| | | |]|]; simpl; auto.
Qed.

Lemma synth_stream_ok ev toks failure sid :
  Forall (chunk_ok (fun c => In (Citation.chunk_id c) (evidence_ids ev)))
    (synth_stream ev toks failure sid).
Proof.
  apply List.Forall_forall. intros ch Hin c Hc. unfold synth_stream in Hin.
  apply in_app_iff in Hin as [Hin | Hin].
  - apply in_flat_map in Hin as (tk & _ & Hin).
    destruct tk as [d|k].
    + destruct Hin as [<- | []]. discriminate.
    + destruct (resolve_tag ev k) as [rc|] eqn:Er; [|destruct Hin].
      destruct Hin as [<- | []]. simpl in Hc. injection Hc as <-.
      unfold evidence_ids. simpl. apply (in_map (fun rc => Chunk.id (RetrievedCandidate.chunk rc))).
      destruct k as [|j]; [discriminate|]. eapply nth_error_In. exact Er.
  - destruct Hin as [<- | []]; destruct failure; discriminate.
Qed.

Lemma gen_citations_ok ev toks :
  Forall (fun c => In (Citation.chunk_id c) (evidence_ids ev)) (gen_citations ev toks).
Proof.
  induction toks as [|tk toks IH]; simpl; [constructor|].
  destruct tk as [d|k]; simpl; [exact IH|].
  destruct (resolve_tag ev k) as [rc|] eqn:Er; simpl; [|exact IH].
  constructor; [|exact IH].
  unfold evidence_ids. simpl. apply (in_map (fun rc => Chunk.id (RetrievedCandidate.chunk rc))).
  destruct k as [|j]; [discriminate|]. eapply nth_error_In. exact Er.
Qed.

Lemma synth_stream_shape ev toks failure sid :
  exists body last,
    synth_stream ev toks failure sid = body ++ [last]
    /\ forallb (fun ch => negb (is_done ch || is_error_chunk ch)) body = true
    /\ match failure with
       | None => is_done last = true /\ StreamChunk.session_id last = Some sid
       | Some m => is_error_chunk last = true /\ StreamChunk.error_ last = Some m
       end.
Proof.
  unfold synth_stream. eexists _, _. split; [reflexivity|]. split.
  - apply List.forallb_forall. intros ch Hin. apply in_flat_map in Hin as (tk & _ & Hin).
    destruct tk as [d|k]; [destruct Hin as [<- | []]; reflexivity|].
    destruct (resolve_tag ev k); [destruct Hin as [<- | []]; reflexivity| destruct Hin].
  - destruct failure; split; reflexivity.
Qed.

Lemma queued_done (d : StreamChunk.t) : is_done d = true -> queued d = true.
Proof. intros Hd. unfold queued. rewrite (is_done_type d Hd). reflexivity. Qed.

(** After the last [done] event [d], followed by no render ([B1]) and then
    by a render or the end ([B2]), the message holds the array when it was
    not empty at that render. *)
Lemma last_done_alias pre s0 chs (h : Hook) (A B1 B2 : list Ev) (d : StreamChunk.t) :
  hook_inv pre s0 chs h ->
  is_done d = true ->
  forallb (fun e => negb (ev_is_done e || ev_is_render e)) B1 = true ->
  (B2 = [] \/ exists B2', B2 = EvRender :: B2') ->
  forallb (fun e => negb (ev_is_done e)) B2 = true ->
  alias (turn (render (run_events h (A ++ EvChunk d :: B1 ++ B2))))
  = match collected (turn (run_events h (A ++ EvChunk d :: B1))) with
    | [] => None
    | _ => Some (length pre)
    end.
Proof.
  intros Hi Hd HB1 HB2 HB2d.
  replace (A ++ EvChunk d :: B1 ++ B2) with ((A ++ EvChunk d :: B1) ++ B2)
    by (rewrite <- app_assoc; reflexivity).
  rewrite run_events_app.
  assert (HB1r : forallb (fun e => negb (ev_is_render e)) B1 = true).
  { apply List.forallb_forall. intros e Hin. rewrite List.forallb_forall in HB1.
    specialize (HB1 e Hin). destruct (ev_is_render e); [|reflexivity].
    rewrite orb_true_r in HB1. discriminate. }
  assert (Hd3 : existsb is_done (queue (run_events h (A ++ EvChunk d :: B1))) = true).
  { rewrite run_events_app. cbn [run_events].
    apply (proj2 (run_events_no_render _ B1 HB1r)).
    rewrite dispatch_queue, queued_done by exact Hd. rewrite existsb_app. cbn [existsb].
    rewrite Hd. cbn [orb]. apply orb_true_r. }
  pose proof (hook_inv_run_events _ _ _ _ (A ++ EvChunk d :: B1) Hi) as Hi3.
  revert Hi3 Hd3. generalize (run_events h (A ++ EvChunk d :: B1)) as h3.
  intros h3 Hi3 Hd3.
  destruct (hook_inv_render _ _ _ _ Hi3) as (Hi4 & Hq4 & Ha4). rewrite Hd3 in Ha4.
  assert (Ha4' : alias (turn (render h3))
                 = match collected (turn h3) with [] => None | _ => Some (length pre) end).
  { rewrite Ha4. destruct (collected (turn h3)) eqn:Ec; [|reflexivity].
    destruct Hi3 as ((a3 & (_ & _ & _ & Hal3) & _) & _). cbn [fst] in Hal3.
    destruct Hal3 as [(Ha & _) | (_ & Hne & _)]; [exact Ha| congruence]. }
  destruct HB2 as [-> | (B2' & ->)]; cbn [run_events]; [exact Ha4'|].
  cbn [forallb ev_is_done negb andb] in HB2d.
  destruct (run_events_no_done _ _ _ _ B2' Hi4) as [H1 H2];
    [rewrite Hq4; reflexivity| exact HB2d|].
  pose proof (hook_inv_run_events _ _ _ _ B2' Hi4) as Hi5.
  destruct (hook_inv_render _ _ _ _ Hi5) as (_ & _ & Ha5).
  rewrite Ha5, H2, H1. exact Ha4'.
Qed.

(* ================================================================== *)
(** ** C1: citations come from the evidence *)

(** Claim C1. Every citation attached to the assistant message of a turn
    names a chunk of the evidence passed to the synthesizer: on the
    streamed path, whatever part of the synthesizer's event sequence the
    hook receives, in any batching and cut at any point, the turn's
    assistant message only carries citations whose [chunk_id] is one of
    the evidence chunks; on the non-streamed path, the same holds for the
    message [answer] returns. *)
Theorem chat_citations_from_evidence (snap s : ChatState.t) (text : string)
    (ev : list RetrievedCandidate.t) (toks : list GenTok)
    (failure : option string) (sid : string) (inps : list Inp) :
  String.eqb (trim text) "" = false ->
  ChatState.isStreaming snap = false ->
  (forall ch, In ch (flat_map inp_chunks inps) ->
              In ch (synth_stream ev toks failure sid)) ->
  (exists a,
     ChatState.messages (chat_turn snap text s (Body inps))
       = ChatState.messages s ++ [user_message text; a]
     /\ ChatMessage.role a = assistant
     /\ cits_ok (fun c => In (Citation.chunk_id c) (evidence_ids ev))
          (ChatMessage.citations a))
  /\ (forall g, cits_ok (fun c => In (Citation.chunk_id c) (evidence_ids ev))
                  (ChatMessage.citations (answer ev g))).
Proof.
  intros Ht Hs Hsub. split.
  - destruct (chat_turn_final snap s text (Body inps) Ht Hs) as (E & Hi & Hq).
    destruct (hook_inv_final _ _ _ _ Hi Hq) as ((a & (Hm & Hr & _ & Hal) & _) & Hcol & _).
    cbn [fst snd] in Hm, Hal.
    exists a. rewrite E, (proj1 (turn_finish_keeps _ _)), Hm, <- app_assoc.
    split; [reflexivity|]. split; [exact Hr|].
    destruct Hal as [(_ & ->) | (_ & _ & ->)]; [exact I|].
    unfold cits_ok. rewrite Hcol. cbn [turn_chunks]. apply citations_in_ok.
    apply List.Forall_forall. intros ch Hin.
    pose proof (synth_stream_ok ev toks failure sid) as H.
    rewrite List.Forall_forall in H. apply H, Hsub, consumed_delivered, Hin.
  - intros g. unfold answer. destruct ev as [|rc ev']; simpl; [exact I|].
    destruct g as [toks'|r]; simpl; [|exact I].
    pose proof (gen_citations_ok (rc :: ev') toks') as H.
    destruct (gen_citations (rc :: ev') toks'); simpl; [exact I| exact H].
Qed.

Lemma chat_citations_from_evidence_witness :
  String.eqb (trim "q") "" = false /\ ChatState.isStreaming initial_state = false
  /\ (forall ch, In ch (flat_map inp_chunks grounded_stream) ->
        In ch (synth_stream evidence_ab [GText "alpha "; GRef 1] None "sess"))
  /\ (exists a,
       ChatState.messages (chat_turn initial_state "q" initial_state (Body grounded_stream))
         = ChatState.messages initial_state ++ [user_message "q"; a]
       /\ ChatMessage.role a = assistant
       /\ cits_ok (fun c => In (Citation.chunk_id c) (evidence_ids evidence_ab))
            (ChatMessage.citations a))
  /\ (exists a,
       ChatState.messages (chat_turn initial_state "q" initial_state (Body grounded_stream))
         = [user_message "q"; a]
       /\ ChatMessage.citations a = Some [citation_of rc_alpha]).
Proof.
  assert (Hsub : forall ch, In ch (flat_map inp_chunks grounded_stream) ->
                   In ch (synth_stream evidence_ab [GText "alpha "; GRef 1] None "sess")).
  { intros ch Hin. simpl in Hin.
    destruct Hin as [<- | [<- | [<- | []]]]; simpl; repeat first [left; reflexivity | right]. }
  split; [reflexivity|]. split; [reflexivity|]. split; [exact Hsub|].
  split; [|eexists; split; reflexivity].
  exact (proj1 (chat_citations_from_evidence initial_state initial_state "q"
            evidence_ab [GText "alpha "; GRef 1] None "sess" grounded_stream
            eq_refl eq_refl Hsub)).
Defined.

(* ================================================================== *)
(** ** C2: refusals carry no citations *)

(** Claim C2. Every message with [is_refusal = true] carries no citations
    and its content is the refusal reason: the non-streamed [answer] only
    builds refusals of that form, and a streamed turn of the hook keeps
    the property of every message (the hook itself only creates messages
    with [is_refusal = false]). *)
Theorem refusal_has_no_citations (snap s : ChatState.t) (text : string)
    (fo : FetchOutcome) :
  Forall refusal_ok (ChatState.messages s) ->
  Forall refusal_ok (ChatState.messages (chat_turn snap text s fo))
  /\ (forall ev g, refusal_ok (answer ev g)).
Proof.
  intros H0. split.
  - destruct (String.eqb (trim text) "" || ChatState.isStreaming snap) eqn:G.
    + rewrite chat_turn_skip by exact G. exact H0.
    + apply orb_false_iff in G as [Ht Hs].
      destruct (chat_turn_final snap s text fo Ht Hs) as (E & Hi & Hq).
      destruct (hook_inv_final _ _ _ _ Hi Hq) as ((a & (Hm & _ & Hf & _) & _) & _).
      cbn [fst snd] in Hm.
      rewrite E, (proj1 (turn_finish_keeps _ _)), Hm.
      apply Forall_app. split; [apply Forall_app; split; [exact H0|]|].
      * constructor; [|constructor]. intros E'. discriminate E'.
      * constructor; [|constructor]. intros E'. rewrite Hf in E'. discriminate E'.
  - intros ev g. unfold answer.
    destruct ev as [|rc ev']; [intros _; split; reflexivity|].
    destruct g as [toks|r]; [intros E; discriminate E| intros _; split; reflexivity].
Qed.

Lemma refusal_has_no_citations_witness :
  ChatMessage.is_refusal (answer [] (Answer [GText "x"])) = true
  /\ Forall refusal_ok (ChatState.messages refused_history)
  /\ Forall refusal_ok (ChatState.messages
       (chat_turn refused_history "q" refused_history (Body grounded_stream)))
  /\ refusal_ok (answer [] (Answer [GText "x"]))
  /\ ChatState.messages (chat_turn refused_history "q" refused_history (Body grounded_stream))
     = ChatState.messages refused_history
       ++ [user_message "q";
           ChatMessage.mk assistant "alpha " (Some [citation_of rc_alpha]) false None None].
Proof.
  assert (H0 : Forall refusal_ok (ChatState.messages refused_history)).
  { constructor; [intros H; discriminate H|]. constructor; [|constructor].
    intros _. split; reflexivity. }
  destruct (refusal_has_no_citations refused_history refused_history "q"
              (Body grounded_stream) H0) as [H1 H2].
  split; [reflexivity|]. split; [exact H0|]. split; [exact H1|].
  split; [apply H2| reflexivity].
Defined.

(* ================================================================== *)
(** ** C3: the stream events and the [done] event *)

(** Claim C3, as stated: the [done] event itself carries the finalized
    citation list. The only citation field of a [StreamChunk] is the single
    optional [citation]; a turn whose stream is two citation events and a
    [done] event ends with both citations on the assistant message while
    the [done] event carries none. *)
Lemma done_carries_no_citation_list :
  let s' := chat_turn initial_state "q" initial_state
              (Body [Read [DataLine (Some (mk_citation_chunk cit1));
                           DataLine (Some (mk_citation_chunk cit2));
                           DataLine (Some (mk_done (Some "sess")))]]) in
  (exists a, ChatState.messages s' = [user_message "q"; a]
             /\ ChatMessage.citations a = Some [cit1; cit2])
  /\ StreamChunk.citation_ (mk_done (Some "sess")) = None.
Proof.
  split; [|reflexivity]. eexists. split; reflexivity.
Qed.

(** Claim C3, amended. Every stream event has one of the four types
    content, citation, done, error. The synthesizer's stream (modelled
    from the spec) ends with exactly one [done] event, or one [error]
    event on failure, and nothing after it. The [done] event carries no
    citation list: the updater the loop queues for it runs at the next
    render of React, and stores the [collectedCitations] array itself on
    the assistant message if the array is not empty then, [null]
    otherwise. So after the last [done] event [d] of a turn, the message
    shows every citation of the turn, later ones included, if at least
    one citation event came before the first render after [d] ([A] and
    [B1] below), and [null] otherwise; streaming stops. *)
Theorem done_attaches_collected_citations (snap s : ChatState.t) (text : string)
    (inps : list Inp) (A B1 B2 : list Ev) (d : StreamChunk.t) :
  String.eqb (trim text) "" = false ->
  ChatState.isStreaming snap = false ->
  loop_events inps = A ++ EvChunk d :: B1 ++ B2 ->
  is_done d = true ->
  forallb (fun e => negb (ev_is_done e || ev_is_render e)) B1 = true ->
  (B2 = [] \/ exists B2', B2 = EvRender :: B2') ->
  forallb (fun e => negb (ev_is_done e)) B2 = true ->
  (forall ch : StreamChunk.t,
     StreamChunk.type ch = StreamChunk.content \/ StreamChunk.type ch = StreamChunk.citation
     \/ StreamChunk.type ch = StreamChunk.done \/ StreamChunk.type ch = StreamChunk.error)
  /\ (forall ev toks failure sid, exists body last,
        synth_stream ev toks failure sid = body ++ [last]
        /\ forallb (fun ch => negb (is_done ch || is_error_chunk ch)) body = true
        /\ match failure with
           | None => is_done last = true /\ StreamChunk.session_id last = Some sid
           | Some m => is_error_chunk last = true /\ StreamChunk.error_ last = Some m
           end)
  /\ exists a,
     ChatState.messages (chat_turn snap text s (Body inps))
       = ChatState.messages s ++ [user_message text; a]
     /\ ChatMessage.role a = assistant
     /\ ChatMessage.citations a
        = match citations_in (ev_chunks (A ++ B1)) with
          | [] => None
          | _ => Some (citations_in (consumed inps))
          end
     /\ ChatState.isStreaming (chat_turn snap text s (Body inps)) = false.
Proof.
  intros Ht Hs He Hd HB1 HB2 HB2d.
  split; [intros ch; destruct (StreamChunk.type ch); auto|].
  split; [intros ev toks failure sid; apply synth_stream_shape|].
  destruct (chat_turn_final snap s text (Body inps) Ht Hs) as (E & Hi & Hq).
  destruct (hook_inv_final _ _ _ _ Hi Hq)
    as ((a & (Hm & Hr & _ & Hal) & _) & Hcol & _ & _ & _ & Hst).
  cbn [fst snd turn_events turn_chunks] in *.
  pose proof (last_done_alias _ _ _ _ A B1 B2 d (hook_inv_start s text) Hd HB1 HB2 HB2d)
    as Ha.
  destruct (hook_inv_run_events _ _ _ _ (A ++ EvChunk d :: B1) (hook_inv_start s text))
    as (_ & Hc3 & _).
  cbn [app] in Hc3. rewrite Hc3, <- He in Ha.
  change (render (run_events (mkHook empty_turn (turn_start s text) []) (loop_events inps)))
    with (turn_hook s text (loop_events inps)) in Ha.
  assert (Ec : citations_in (ev_chunks (A ++ EvChunk d :: B1))
               = citations_in (ev_chunks (A ++ B1))).
  { rewrite !ev_chunks_app. change (ev_chunks (EvChunk d :: B1)) with ([d] ++ ev_chunks B1).
    rewrite !citations_in_app, citations_in_done by exact Hd. reflexivity. }
  rewrite Ec in Ha.
  rewrite E, (proj1 (turn_finish_keeps _ _)).
  exists a. rewrite Hm, <- app_assoc. split; [reflexivity|]. split; [exact Hr|]. split.
  - destruct (citations_in (ev_chunks (A ++ B1))) as [|c cs] eqn:Ecs.
    + destruct Hal as [(_ & Hn) | (Ha' & _)]; [exact Hn| congruence].
    + destruct Hal as [(Hn & _) | (_ & _ & Hc)]; [congruence|].
      rewrite Hc, Hcol. reflexivity.
  - cbn [turn_finish]. apply finish_not_streaming. rewrite Hst.
    change (ChatState.isStreaming (turn_start s text)) with true.
    unfold stream_after. rewrite consumed_events, He, ev_chunks_app.
    change (ev_chunks (EvChunk d :: B1 ++ B2)) with (d :: ev_chunks (B1 ++ B2)).
    rewrite existsb_app. cbn [existsb]. rewrite Hd. cbn [orb]. rewrite orb_true_r.
    reflexivity.
Qed.

Lemma done_attaches_collected_citations_witness :
  String.eqb (trim "q") "" = false /\ ChatState.isStreaming initial_state = false
  /\ loop_events stream_cite_after_done
     = [EvChunk (mk_content "x")] ++ EvChunk (mk_done (Some "sess"))
         :: [EvChunk (mk_citation_chunk cit1)] ++ [EvRender; EvChunk (mk_content "y")]
  /\ is_done (mk_done (Some "sess")) = true
  /\ forallb (fun e => negb (ev_is_done e || ev_is_render e))
       [EvChunk (mk_citation_chunk cit1)] = true
  /\ ([EvRender; EvChunk (mk_content "y")] = []
      \/ exists B2', [EvRender; EvChunk (mk_content "y")] = EvRender :: B2')
  /\ forallb (fun e => negb (ev_is_done e)) [EvRender; EvChunk (mk_content "y")] = true
  /\ (exists a,
       ChatState.messages (chat_turn initial_state "q" initial_state
                             (Body stream_cite_after_done))
         = ChatState.messages initial_state ++ [user_message "q"; a]
       /\ ChatMessage.role a = assistant
       /\ ChatMessage.citations a
          = match citations_in (ev_chunks ([EvChunk (mk_content "x")]
                                           ++ [EvChunk (mk_citation_chunk cit1)])) with
            | [] => None
            | _ => Some (citations_in (consumed stream_cite_after_done))
            end
       /\ ChatState.isStreaming (chat_turn initial_state "q" initial_state
                                   (Body stream_cite_after_done)) = false)
  /\ ChatState.messages (chat_turn initial_state "q" initial_state (Body stream_cite_after_done))
     = [user_message "q"; ChatMessage.mk assistant "xy" (Some [cit1]) false None None].
Proof.
  do 5 (split; [reflexivity|]). split; [right; eexists; reflexivity|].
  split; [reflexivity|]. split; [|reflexivity].
  exact (proj2 (proj2 (done_attaches_collected_citations initial_state initial_state "q"
     stream_cite_after_done [EvChunk (mk_content "x")] [EvChunk (mk_citation_chunk cit1)]
     [EvRender; EvChunk (mk_content "y")] (mk_done (Some "sess"))
     eq_refl eq_refl eq_refl eq_refl eq_refl (or_intror (ex_intro _ _ eq_refl)) eq_refl))).
Defined.

(* ================================================================== *)
(** ** C5: retrieval output *)

(** Scenario A: [top_k = 10, rerank_top_k = 5] over an index of three
    chunks returns the three of them. *)
Example scenario_A :
  retrieve (Some [(chunk_a, 10); (chunk_b, 20); (chunk_c, 30)]) None 10 5
  = RetrieveOk [RetrievedCandidate.mk chunk_a (-9) 1;
                RetrievedCandidate.mk chunk_b (-19) 2;
                RetrievedCandidate.mk chunk_c (-29) 3].
Proof. reflexivity. Qed.

Example rerank_stable :
  retrieve (Some [(chunk_a, 10); (chunk_b, 20); (chunk_c, 30)])
    (Some (fun c => if Z.eqb (Chunk.id c) 3 then 7 else 5)) 10 2
  = RetrieveOk [RetrievedCandidate.mk chunk_c 7 1;
                RetrievedCandidate.mk chunk_a 5 2].
Proof. reflexivity. Qed.

Lemma insert_desc_cons x l :
  exists h r, insert_desc x l = h :: r /\ (h = x \/ hd_error l = Some h).
Proof.
  destruct l as [|y l]; simpl.
  - eexists _, _. split; [reflexivity| left; reflexivity].
  - destruct (Z.leb y.2 x.2).
    + eexists _, _. split; [reflexivity| left; reflexivity].
    + eexists _, _. split; [reflexivity| right; reflexivity].
Qed.

Lemma non_increasing_cons x l :
  non_increasing (x :: l) = true <->
  non_increasing l = true /\ (forall y, hd_error l = Some y -> y <= x).
Proof.
  destruct l as [|y l]; simpl.
  - split; [intros _; split; [reflexivity| discriminate]| reflexivity].
  - rewrite andb_true_iff, Z.leb_le. split.
    + intros [H1 H2]. split; [exact H2|]. intros z E. injection E as <-. exact H1.
    + intros [H1 H2]. split; [apply H2; reflexivity| exact H1].
Qed.

Lemma insert_desc_sorted x l :
  non_increasing (map snd l) = true -> non_increasing (map snd (insert_desc x l)) = true.
Proof.
  induction l as [|y l IH]; intros H; simpl; [reflexivity|].
  destruct (Z.leb y.2 x.2) eqn:E.
  - simpl. simpl in H. rewrite E. exact H.
  - apply Z.leb_gt in E. simpl in H. apply non_increasing_cons in H as [Hl Hh].
    destruct (insert_desc_cons x l) as (h & r & Ei & Eh).
    apply non_increasing_cons. split.
    + apply IH. exact Hl.
    + rewrite Ei. simpl. intros z Ez. injection Ez as <-.
      destruct Eh as [-> | Eh]; [lia|].
      apply Hh. destruct l; [discriminate|]. simpl in *. congruence.
Qed.

Lemma sort_desc_sorted l : non_increasing (map snd (sort_desc l)) = true.
Proof.
  induction l as [|x l IH]; simpl; [reflexivity|]. apply insert_desc_sorted, IH.
Qed.

Lemma non_increasing_firstn n l :
  non_increasing l = true -> non_increasing (firstn n l) = true.
Proof.
  revert l. induction n as [|n IH]; intros l H; [reflexivity|].
  destruct l as [|x l]; [reflexivity|].
  apply non_increasing_cons in H as [Hl Hh].
  simpl. apply non_increasing_cons. split; [apply IH, Hl|].
  intros y Hy. apply Hh. destruct n, l; simpl in *; congruence.
Qed.

Lemma non_decreasing_firstn n l :
  non_decreasing l = true -> non_decreasing (firstn n l) = true.
Proof.
  revert l. induction n as [|n IH]; intros l H; [reflexivity|].
  destruct l as [|x [|y l]]; [reflexivity| destruct n; reflexivity|].
  simpl in H. apply andb_true_iff in H as [Hxy Hl].
  destruct n as [|n]; [reflexivity|].
  specialize (IH (y :: l) Hl). simpl in IH |- *. rewrite Hxy. exact IH.
Qed.

Lemma similarity_non_increasing l :
  non_decreasing l = true -> non_increasing (map (fun d => 1 - d) l) = true.
Proof.
  induction l as [|x [|y l] IH]; intros H; [reflexivity|reflexivity|].
  simpl in H |- *. apply andb_true_iff in H as [Hxy Hl].
  apply andb_true_iff. split; [apply Z.leb_le; apply Z.leb_le in Hxy; lia|].
  apply IH. exact Hl.
Qed.

Lemma filter_insert_desc z x l :
  List.filter (fun p => Z.eqb p.2 z) (insert_desc x l)
  = List.filter (fun p => Z.eqb p.2 z) (x :: l).
Proof.
  induction l as [|y l IH]; simpl; [reflexivity|].
  destruct (Z.leb y.2 x.2) eqn:E; [reflexivity|].
  apply Z.leb_gt in E. simpl. rewrite IH. simpl.
  destruct (Z.eqb x.2 z) eqn:Ex, (Z.eqb y.2 z) eqn:Ey; try reflexivity.
  apply Z.eqb_eq in Ex, Ey. lia.
Qed.

Lemma filter_sort_desc z l :
  List.filter (fun p => Z.eqb p.2 z) (sort_desc l) = List.filter (fun p => Z.eqb p.2 z) l.
Proof.
  induction l as [|x l IH]; simpl; [reflexivity|].
  rewrite filter_insert_desc. simpl. rewrite IH. reflexivity.
Qed.

Lemma assign_ranks_filter z i l :
  map RetrievedCandidate.chunk
    (List.filter (fun rc => Z.eqb (RetrievedCandidate.score rc) z) (assign_ranks i l))
  = map fst (List.filter (fun p => Z.eqb p.2 z) l).
Proof.
  revert i. induction l as [|p l IH]; intros i; simpl; [reflexivity|].
  destruct (Z.eqb p.2 z); simpl; rewrite IH; reflexivity.
Qed.

Lemma assign_ranks_scores i l :
  map RetrievedCandidate.score (assign_ranks i l) = map snd l.
Proof.
  revert i. induction l as [|p l IH]; intros i; simpl; [reflexivity|]. f_equal. apply IH.
Qed.

Lemma length_assign_ranks i l : length (assign_ranks i l) = length l.
Proof. revert i. induction l; intros i; simpl; [reflexivity| f_equal; auto]. Qed.

Lemma filter_firstn_prefix {A} (f : A -> bool) n (l : list A) :
  List.filter f (firstn n l) `prefix_of` List.filter f l.
Proof.
  exists (List.filter f (skipn n l)).
  rewrite <- List.filter_app, firstn_skipn. reflexivity.
Qed.

Lemma prefix_map {A B} (g : A -> B) (l1 l2 : list A) :
  l1 `prefix_of` l2 -> map g l1 `prefix_of` map g l2.
Proof. intros [k ->]. exists (map g k). apply map_app. Qed.

(** Claim C5. For every successful retrieval call (the external index
    returning its pairs ordered by distance), the result has at most
    [rerank_top_k] candidates, their scores are non-increasing, and for
    every score value the candidates with that score appear in the order
    of the upstream stage (a prefix of the upstream candidates with that
    score, in order). *)
Theorem retrieve_bounded_sorted_stable (hits : list (Chunk.t * Z))
    (reranker : option (Chunk.t -> Z)) (top_k rerank_top_k : nat)
    (out : list RetrievedCandidate.t) :
  non_decreasing (map snd hits) = true ->
  retrieve (Some hits) reranker top_k rerank_top_k = RetrieveOk out ->
  (length out <= rerank_top_k)%nat
  /\ non_increasing (map RetrievedCandidate.score out) = true
  /\ (forall z,
        map RetrievedCandidate.chunk
          (List.filter (fun rc => Z.eqb (RetrievedCandidate.score rc) z) out)
        `prefix_of`
        map fst (List.filter (fun p => Z.eqb p.2 z) (upstream hits reranker top_k))).
Proof.
  intros Hd E. simpl in E. injection E as <-.
  split; [|split].
  - rewrite length_assign_ranks. apply firstn_le_length.
  - rewrite assign_ranks_scores. rewrite <- firstn_map.
    apply non_increasing_firstn. unfold stage2.
    destruct reranker as [f|]; [apply sort_desc_sorted|].
    unfold upstream, stage1. rewrite map_map. simpl.
    rewrite <- (map_map snd (fun d => 1 - d)).
    apply similarity_non_increasing. rewrite <- firstn_map.
    apply non_decreasing_firstn. exact Hd.
  - intros z. rewrite assign_ranks_filter. apply prefix_map.
    assert (Hs : List.filter (fun p => Z.eqb p.2 z) (stage2 hits reranker top_k)
                 = List.filter (fun p => Z.eqb p.2 z) (upstream hits reranker top_k)).
    { unfold stage2. destruct reranker; [apply filter_sort_desc| reflexivity]. }
    rewrite <- Hs. apply filter_firstn_prefix.
Qed.

Lemma retrieve_bounded_sorted_stable_witness :
  non_decreasing (map snd [(chunk_a, 10); (chunk_b, 20); (chunk_c, 30)]) = true
  /\ (length [RetrievedCandidate.mk chunk_c 7 1; RetrievedCandidate.mk chunk_a 5 2]
        <= 2)%nat.
Proof.
  split; [reflexivity|].
  apply (retrieve_bounded_sorted_stable [(chunk_a, 10); (chunk_b, 20); (chunk_c, 30)]
           (Some (fun c => if Z.eqb (Chunk.id c) 3 then 7 else 5)) 10 2
           _ eq_refl eq_refl).
Defined.

(* ================================================================== *)
(** ** C6: trace summaries *)

Lemma record_all_lookup (store : gmap string (list TraceEvent.t))
    (log : list (string * TraceEvent.t)) (r : string) :
  default [] (record_all store log !! r)
  = default [] (store !! r) ++ map snd (List.filter (fun p => String.eqb p.1 r) log).
Proof.
  revert store. induction log as [|[r' e] log IH]; intros store.
  - simpl. symmetry. apply app_nil_r.
  - unfold record_all in *. simpl. rewrite IH. unfold record.
    destruct (String.eqb r' r) eqn:E.
    + apply String.eqb_eq in E as ->. rewrite lookup_insert_eq. simpl.
      rewrite <- app_assoc. reflexivity.
    + apply String.eqb_neq in E. rewrite lookup_insert_ne by exact E. reflexivity.
Qed.

Lemma summary_fold is_failure acc evs :
  foldl (summary_step is_failure) acc evs
  = TraceDetailSummary.mk
      (TraceDetailSummary.total_events acc + length evs)
      (TraceDetailSummary.total_duration_ms acc
         + sum_Z (map (fun e => num (TraceEvent.duration_ms e)) evs))
      (TraceDetailSummary.total_tokens acc
         + sum_Z (map (fun e => num (TraceEvent.tokens_in e)
                                + num (TraceEvent.tokens_out e)) evs))
      (TraceDetailSummary.total_cost_usd acc
         + sum_Z (map (fun e => num (TraceEvent.cost_usd e)) evs))
      (TraceDetailSummary.has_errors acc
       || existsb (fun e => is_failure (TraceEvent.status e)) evs).
Proof.
  revert acc. induction evs as [|e evs IH]; intros [n d t c h]; simpl.
  - rewrite Nat.add_0_r, !Z.add_0_r, orb_false_r. reflexivity.
  - rewrite IH. simpl. f_equal; [lia|lia|lia|lia|].
    rewrite orb_assoc. reflexivity.
Qed.

(** Claim C6. After any sequence of [record] calls, [summarize run_id]
    reports as many events as were recorded for [run_id], the plain sum of
    their durations, the sum of [tokens_in + tokens_out], the sum of their
    costs (absent values counting as 0), and [has_errors] exactly when some
    recorded event has a failure status. *)
Theorem summarize_totals (is_failure : string -> bool)
    (log : list (string * TraceEvent.t)) (r : string) :
  let evs := map snd (List.filter (fun p => String.eqb p.1 r) log) in
  let sm := summarize is_failure (record_all ∅ log) r in
  TraceDetailSummary.total_events sm = length evs
  /\ TraceDetailSummary.total_duration_ms sm
     = sum_Z (map (fun e => num (TraceEvent.duration_ms e)) evs)
  /\ TraceDetailSummary.total_tokens sm
     = sum_Z (map (fun e => num (TraceEvent.tokens_in e)
                            + num (TraceEvent.tokens_out e)) evs)
  /\ TraceDetailSummary.total_cost_usd sm
     = sum_Z (map (fun e => num (TraceEvent.cost_usd e)) evs)
  /\ (TraceDetailSummary.has_errors sm = true
      <-> exists e, In e evs /\ is_failure (TraceEvent.status e) = true).
Proof.
  intros evs sm. unfold sm, summarize.
  rewrite record_all_lookup, lookup_empty. simpl. rewrite summary_fold. simpl.
  fold evs. split; [reflexivity|]. split; [reflexivity|].
  split; [reflexivity|]. split; [reflexivity|].
  apply existsb_exists.
Qed.

(* ================================================================== *)
(** ** C7: the trace listing filters *)

(** Claim C7, as stated: with a session filter, exactly the traces whose
    session identifier matches are listed. The trace [abc123] of session
    [zzz] is listed for the filter [abc], which its session identifier
    neither equals nor contains. *)
Lemma session_filter_lists_other_session :
  In trace_abc (filteredTraces [trace_abc] "abc")
  /\ TraceSummary.session_id trace_abc = Some "zzz"
  /\ includes "zzz" "abc" = false.
Proof. split; [left; reflexivity| split; reflexivity]. Qed.

Lemma filteredTraces_incl (traces : list TraceSummary.t) (f : string) (t : TraceSummary.t) :
  In t (filteredTraces traces f) -> In t traces.
Proof.
  unfold filteredTraces. destruct (String.eqb f ""); [auto|].
  intros H. apply filter_In in H. tauto.
Qed.

Lemma page_params_event_type (eventType : string) :
  String.eqb eventType "all" = false -> String.eqb eventType "" = false ->
  lookup_param "event_type" (page_params eventType) = Some eventType
  /\ lookup_param "session_id" (page_params eventType) = None.
Proof.
  intros Ha He. unfold page_params, traces_list_params. rewrite Ha.
  cbn [negb truthy andb]. rewrite He, Ha. cbn [negb andb app].
  unfold lookup_param. simpl. split; reflexivity.
Qed.

Lemma in_firstn {A} (n : nat) (l : list A) (x : A) : In x (firstn n l) -> In x l.
Proof. intros H. rewrite <- (firstn_skipn n l). apply in_or_app. left. exact H. Qed.

(** Claim C7, amended. The session filter is applied on the client to the
    fetched page of traces, and no [session_id] parameter is sent: an
    empty filter lists every fetched trace, otherwise a trace is listed
    iff its session identifier or its run identifier contains the filter,
    ignoring ASCII case. The event type, unless it is ["all"] (or empty),
    is sent to the server as the [event_type] parameter, so (with the
    server of the spec) only traces with an event of that type are
    listed: the client filter only removes traces from the server's
    answer. *)
Theorem trace_filters_spec (traces : list TraceSummary.t) (f : string)
    (t : TraceSummary.t) (eventType : string) :
  (In t (filteredTraces traces f)
   <-> In t traces
       /\ (f = ""
           \/ (match TraceSummary.session_id t with
               | Some sid => includes (toLowerCase sid) (toLowerCase f)
               | None => false
               end
               || includes (toLowerCase (TraceSummary.run_id t)) (toLowerCase f))
              = true))
  /\ page_params eventType
     = [("page", "1"); ("page_size", "50")]
       ++ (if String.eqb eventType "all" || String.eqb eventType "" then []
           else [("event_type", eventType)])
  /\ (forall store, String.eqb eventType "all" = false -> String.eqb eventType "" = false ->
        In t (traces_page store eventType f) ->
        exists evs, In (t, evs) store /\ In eventType evs).
Proof.
  split; [|split].
  - unfold filteredTraces. destruct (String.eqb f "") eqn:E.
    + apply String.eqb_eq in E. split; [intros H; split; auto| intros [H _]; exact H].
    + apply String.eqb_neq in E. rewrite filter_In.
      split; [intros [H1 H2]; split; auto| intros [H1 [H2|H2]]; [contradiction| auto]].
  - unfold page_params, traces_list_params. simpl.
    destruct (String.eqb eventType "all") eqn:Ea; simpl; [reflexivity|].
    unfold truthy. destruct (String.eqb eventType "") eqn:Ee; simpl; rewrite ?Ea;
      reflexivity.
  - intros store Ha He Hin. unfold traces_page in Hin.
    apply filteredTraces_incl, in_firstn in Hin. unfold server_list in Hin.
    destruct (page_params_event_type eventType Ha He) as [E1 E2].
    rewrite E1, E2 in Hin. cbn [Nat.sub Nat.mul skipn] in Hin.
    apply in_map_iff in Hin as ([t' evs] & Heq & Hp). cbn [fst] in Heq. subst t'.
    apply filter_In in Hp as [Hs Hc]. cbn [snd] in Hc.
    rewrite andb_true_r in Hc. apply existsb_exists in Hc as (x & Hx & Ex).
    apply String.eqb_eq in Ex. subst x. exists evs. split; assumption.
Qed.

Lemma trace_filters_spec_witness :
  String.eqb "generation" "all" = false /\ String.eqb "generation" "" = false
  /\ In trace_long (traces_page trace_store "generation" "4f9c")
  /\ (exists evs, In (trace_long, evs) trace_store /\ In "generation" evs)
  /\ traces_page trace_store "generation" "" = [trace_long]
  /\ traces_page trace_store "all" "" = [trace_long; trace_other].
Proof.
  assert (Hin : In trace_long (traces_page trace_store "generation" "4f9c"))
    by (vm_compute; left; reflexivity).
  split; [reflexivity|]. split; [reflexivity|]. split; [exact Hin|].
  split; [|split; vm_compute; reflexivity].
  exact (proj2 (proj2 (trace_filters_spec [] "4f9c" trace_long "generation"))
           trace_store eq_refl eq_refl Hin).
Defined.

(* ================================================================== *)
(** ** C8: the EvalRun lifecycle *)

Example scenario_D :
  EvalRun.status
    (harness_run (EvalRun.mk pending 4 0 0 false)
       [Begin; StartCase; FinishCase; BetweenCases; StartCase; CancelRequest;
        BetweenCases; StartCase; FinishCase])
  = cancelled
  /\ EvalRun.completed_cases
       (harness_run (EvalRun.mk pending 4 0 0 false)
          [Begin; StartCase; FinishCase; BetweenCases; StartCase; CancelRequest;
           BetweenCases; StartCase; FinishCase])
     = 2%nat.
Proof. split; reflexivity. Qed.

Lemma harness_step_terminal r e :
  is_terminal (EvalRun.status r) = true -> EvalRun.status (harness_step r e) = EvalRun.status r.
Proof.
  intros Ht. destruct r as [st n sc cc cr]; simpl in *.
  destruct e; simpl; destruct st; try discriminate; simpl;
    try reflexivity; destruct (Nat.ltb cc sc); reflexivity.
Qed.

(** Claim C8. Every harness step either keeps the run's status or moves it
    along an edge of [pending -> running -> {completed, failed,
    cancelled}]; from a terminal status no sequence of steps changes the
    status, and a cancel request on a terminal run returns it unchanged. *)
Theorem eval_run_state_machine (r : EvalRun.t) (evs : list HarnessEvent) :
  (forall e, status_eqb (EvalRun.status r) (EvalRun.status (harness_step r e))
             || status_edge (EvalRun.status r) (EvalRun.status (harness_step r e))
             = true)
  /\ (is_terminal (EvalRun.status r) = true ->
      EvalRun.status (harness_run r evs) = EvalRun.status r
      /\ harness_step r CancelRequest = r).
Proof.
  split.
  - intros e. destruct r as [st n sc cc cr].
    destruct e; simpl; destruct st; simpl; try reflexivity;
      repeat match goal with
             | |- context [if ?b then _ else _] => destruct b; simpl
             end; reflexivity.
  - intros Ht. split.
    + revert r Ht. induction evs as [|e evs IH]; intros r Ht; [reflexivity|].
      unfold harness_run. simpl. fold (harness_run (harness_step r e) evs).
      rewrite IH; [apply harness_step_terminal, Ht|].
      rewrite harness_step_terminal by exact Ht. exact Ht.
    + unfold harness_step. rewrite Ht. reflexivity.
Qed.

Lemma eval_run_state_machine_witness :
  is_terminal (EvalRun.status done_run) = true
  /\ EvalRun.status (harness_run done_run [Begin; CancelRequest; BetweenCases])
     = EvalRun.status done_run
  /\ harness_step done_run CancelRequest = done_run.
Proof.
  split; [reflexivity|].
  exact (proj2 (eval_run_state_machine done_run [Begin; CancelRequest; BetweenCases])
           eq_refl).
Defined.

(* ================================================================== *)
(** ** C10: the upload guard *)

(** Claim C10. [handleFile] issues an upload exactly for files whose MIME
    type is [application/pdf], [text/plain] or [text/markdown] (or whose
    name ends in [.md]) and whose size is at most [10 * 1024 * 1024]
    bytes, and reports an error exactly for the other files. *)
Theorem handleFile_upload_iff (docData : option (list DocumentResponse.t))
    (file : File.t) :
  let accepted :=
    ((String.eqb (File.type file) "application/pdf"
      || String.eqb (File.type file) "text/plain"
      || String.eqb (File.type file) "text/markdown"
      || endsWith (File.name file) ".md")
     && Z.leb (File.size file) (10 * 1024 * 1024))%bool in
  existsb is_upload (handleFile docData file) = accepted
  /\ existsb is_error (handleFile docData file) = negb accepted.
Proof.
  intros accepted. unfold accepted, handleFile. simpl existsb.
  rewrite Z.leb_antisym.
  destruct (String.eqb (File.type file) "application/pdf"),
           (String.eqb (File.type file) "text/plain"),
           (String.eqb (File.type file) "text/markdown"),
           (endsWith (File.name file) ".md");
    simpl; try (split; reflexivity);
    destruct (Z.ltb (10 * 1024 * 1024) (File.size file)); simpl;
    try (split; reflexivity);
    rewrite !existsb_app; simpl;
    destruct (match docData with Some _ => _ | None => None end); simpl;
    split; reflexivity.
Qed.

(* ================================================================== *)
(** ** Lemmas on strings: appending, prefixes, trimming, lowering *)

Lemma str_length_app (x y : string) :
  String.length (x +:+ y) = (String.length x + String.length y)%nat.
Proof.
  induction x as [|c x IH]; [reflexivity|]. rewrite str_app_cons. simpl. rewrite IH. reflexivity.
Qed.

Lemma prefix_spec (f s : string) :
  String.prefix f s = true <-> exists y, s = f +:+ y.
Proof.
  revert s. induction f as [|c f IH]; intros s.
  - split; [intros _; exists s; reflexivity| destruct s; reflexivity].
  - destruct s as [|d s].
    + split; [discriminate| intros [y Hy]; discriminate].
    + simpl. destruct (ascii_dec c d) as [->|Hne].
      * rewrite IH. split; intros [y Hy]; exists y; [rewrite Hy|injection Hy]; auto.
      * split; [discriminate| intros [y Hy]; injection Hy; intros; congruence].
Qed.

Lemma includes_nil (f : string) : includes "" f = (String.prefix f "" || false)%bool.
Proof. reflexivity. Qed.

Lemma includes_cons (c : ascii) (s f : string) :
  includes (String c s) f = (String.prefix f (String c s) || includes s f)%bool.
Proof. reflexivity. Qed.

Lemma includes_spec (s f : string) :
  includes s f = true <-> exists x y, s = x +:+ f +:+ y.
Proof.
  induction s as [|c s IH].
  - rewrite includes_nil, orb_false_r, prefix_spec. split.
    + intros [y Hy]. exists "", y. exact Hy.
    + intros (x & y & Hxy). destruct x; [exists y; exact Hxy| discriminate].
  - rewrite includes_cons, orb_true_iff, prefix_spec, IH. split.
    + intros [[y Hy] | (x & y & Hxy)].
      * exists "", y. exact Hy.
      * exists (String c x), y. rewrite Hxy. reflexivity.
    + intros (x & y & Hxy). destruct x as [|c' x].
      * left. exists y. exact Hxy.
      * right. injection Hxy as -> Hs. exists x, y. exact Hs.
Qed.

Lemma includes_trans (a b c : string) :
  includes a b = true -> includes b c = true -> includes a c = true.
Proof.
  rewrite !includes_spec. intros (x1 & y1 & ->) (x2 & y2 & ->).
  exists (x1 +:+ x2), (y2 +:+ y1). rewrite !str_app_assoc. reflexivity.
Qed.

Lemma includes_prefix (s f : string) : String.prefix f s = true -> includes s f = true.
Proof.
  destruct s; [rewrite includes_nil| rewrite includes_cons]; intros ->; reflexivity.
Qed.

Lemma lower_char_idem (c : ascii) : lower_char (lower_char c) = lower_char c.
Proof. destruct c as [[] [] [] [] [] [] [] []]; reflexivity. Qed.

Lemma toLowerCase_idem (s : string) : toLowerCase (toLowerCase s) = toLowerCase s.
Proof.
  induction s as [|c s IH]; simpl; [reflexivity|]. rewrite lower_char_idem, IH. reflexivity.
Qed.

Lemma toLowerCase_app (x y : string) :
  toLowerCase (x +:+ y) = toLowerCase x +:+ toLowerCase y.
Proof.
  induction x as [|c x IH]; [reflexivity|]. rewrite str_app_cons. simpl.
  rewrite IH. reflexivity.
Qed.

Lemma toLowerCase_empty (f : string) :
  String.eqb (toLowerCase f) "" = String.eqb f "".
Proof. destruct f; reflexivity. Qed.

Lemma includes_lower (s f : string) :
  includes s f = true -> includes (toLowerCase s) (toLowerCase f) = true.
Proof.
  rewrite !includes_spec. intros (x & y & ->).
  exists (toLowerCase x), (toLowerCase y). rewrite !toLowerCase_app. reflexivity.
Qed.

Lemma substring_prefix (n : nat) (s : string) : String.prefix (String.substring 0 n s) s = true.
Proof.
  revert n. induction s as [|c s IH]; intros [|n]; simpl; try reflexivity.
  destruct (ascii_dec c c) as [_|Hne]; [apply IH| congruence].
Qed.

Lemma substring_length (n : nat) (s : string) :
  String.length (String.substring 0 n s) = Nat.min n (String.length s).
Proof.
  revert n. induction s as [|c s IH]; intros [|n]; simpl; try reflexivity.
  rewrite IH. reflexivity.
Qed.

Lemma substring_all (n : nat) (s : string) :
  (String.length s <= n)%nat -> String.substring 0 n s = s.
Proof.
  revert n. induction s as [|c s IH]; intros [|n] H; simpl in *; try reflexivity.
  - lia.
  - rewrite IH by lia. reflexivity.
Qed.

Lemma substring_app (x y : string) (n : nat) :
  String.length x = n -> String.substring 0 n (x +:+ y) = x.
Proof.
  revert n. induction x as [|c x IH]; intros [|n] H; simpl in H; try discriminate.
  - destruct y; reflexivity.
  - rewrite str_app_cons. simpl. rewrite IH by lia. reflexivity.
Qed.

Lemma substring_idem (n : nat) (s : string) :
  String.substring 0 n (String.substring 0 n s) = String.substring 0 n s.
Proof. apply substring_all. rewrite substring_length. lia. Qed.

Lemma toLowerCase_substring (n : nat) (s : string) :
  toLowerCase (String.substring 0 n s) = String.substring 0 n (toLowerCase s).
Proof.
  revert n. induction s as [|c s IH]; intros [|n]; simpl; try reflexivity.
  rewrite IH. reflexivity.
Qed.

(** [trim] on lists of characters. *)
Lemma drop_space_idem (l : list ascii) : drop_space (drop_space l) = drop_space l.
Proof.
  induction l as [|c l IH]; simpl; [reflexivity|].
  destruct (js_space c) eqn:E; [exact IH| simpl; rewrite E; reflexivity].
Qed.

Lemma drop_space_head (l r : list ascii) (c : ascii) :
  drop_space l = c :: r -> js_space c = false.
Proof.
  induction l as [|d l IH]; simpl; [discriminate|].
  destruct (js_space d) eqn:E; [exact IH| intros H; injection H as <- _; exact E].
Qed.

Lemma drop_space_suffix (l : list ascii) : exists p, l = p ++ drop_space l.
Proof.
  induction l as [|c l [p Hp]]; simpl; [exists []; reflexivity|].
  destruct (js_space c); [exists (c :: p); simpl; rewrite <- Hp; reflexivity|].
  exists []. reflexivity.
Qed.

Lemma trim_list_fixed (l : list ascii) :
  drop_space (rev (drop_space (rev (drop_space l))))
  = rev (drop_space (rev (drop_space l))).
Proof.
  destruct (drop_space_suffix (rev (drop_space l))) as [p Hp].
  remember (drop_space (rev (drop_space l))) as k eqn:Ek.
  destruct k as [|y k0]; [reflexivity|].
  destruct (exists_last (l := y :: k0) ltac:(discriminate)) as (k' & x & Hk).
  rewrite Hk in Hp |- *.
  assert (Hh : drop_space l = x :: (rev k' ++ rev p)).
  { rewrite <- (List.rev_involutive (drop_space l)), Hp.
    rewrite rev_app_distr, rev_app_distr. reflexivity. }
  pose proof (drop_space_head _ _ _ Hh) as Hx.
  rewrite rev_app_distr. simpl. rewrite Hx. reflexivity.
Qed.

Lemma trim_idem (s : string) : trim (trim s) = trim s.
Proof.
  unfold trim. rewrite String.list_ascii_of_string_of_list_ascii.
  rewrite trim_list_fixed, List.rev_involutive, trim_list_fixed. reflexivity.
Qed.

(* ================================================================== *)
(** ** Further properties of a turn of the hook *)

(** The content of the assistant message. After a turn, the conversation
    is the previous one followed by the user message and one assistant
    message, whose content is the concatenation, in order, of the content
    deltas the loop consumed, those that come after a [done] or an
    [error] event included; when the request fails before the body is
    read, the content stays empty. *)
Theorem turn_assistant_content (snap s : ChatState.t) (text : string)
    (fo : FetchOutcome) :
  String.eqb (trim text) "" = false ->
  ChatState.isStreaming snap = false ->
  exists a, ChatState.messages (chat_turn snap text s fo)
              = ChatState.messages s ++ [user_message text; a]
    /\ ChatMessage.role a = assistant
    /\ ChatMessage.is_refusal a = false
    /\ ChatMessage.content a = content_in (turn_chunks fo).
Proof.
  intros Ht Hs. destruct (chat_turn_final snap s text fo Ht Hs) as (E & Hi & Hq).
  destruct (hook_inv_final _ _ _ _ Hi Hq) as ((a & (Hm & Hr & Hf & _) & Hc) & _).
  cbn [fst snd] in Hm.
  exists a. rewrite E, (proj1 (turn_finish_keeps _ _)), Hm, <- app_assoc. auto.
Qed.

Lemma turn_assistant_content_witness :
  String.eqb (trim "q") "" = false /\ ChatState.isStreaming initial_state = false
  /\ exists a, ChatState.messages (chat_turn initial_state "q" initial_state stream_past_done)
                 = ChatState.messages initial_state ++ [user_message "q"; a]
       /\ ChatMessage.role a = assistant
       /\ ChatMessage.is_refusal a = false
       /\ ChatMessage.content a = content_in (turn_chunks stream_past_done).
Proof.
  split; [reflexivity|]. split; [reflexivity|].
  apply (turn_assistant_content initial_state initial_state "q" stream_past_done);
    reflexivity.
Defined.

(** The citation panel. After a turn, the [citations] the hook exposes
    are exactly the citations of the [citation] events the loop consumed,
    in order: the list starts empty with every turn, each event adds its
    citation, and nothing else (a [done] or [error] event, a failed
    request or read) changes it. *)
Theorem turn_panel_citations (snap s : ChatState.t) (text : string)
    (fo : FetchOutcome) :
  String.eqb (trim text) "" = false ->
  ChatState.isStreaming snap = false ->
  ChatState.citations (chat_turn snap text s fo) = citations_in (turn_chunks fo).
Proof.
  intros Ht Hs. destruct (chat_turn_final snap s text fo Ht Hs) as (E & Hi & Hq).
  destruct (hook_inv_final _ _ _ _ Hi Hq) as (_ & _ & Hp & _).
  rewrite E, (proj1 (proj2 (turn_finish_keeps _ _))). exact Hp.
Qed.

Lemma turn_panel_citations_witness :
  String.eqb (trim "q") "" = false /\ ChatState.isStreaming initial_state = false
  /\ ChatState.citations (chat_turn initial_state "q" initial_state stream_past_done)
     = citations_in (turn_chunks stream_past_done).
Proof.
  split; [reflexivity|]. split; [reflexivity|].
  apply (turn_panel_citations initial_state initial_state "q" stream_past_done);
    reflexivity.
Defined.

(** A stream that ends without a [done] event. When the loop consumes no
    [done] event (the body ends, is aborted or fails first), the
    assistant message keeps [citations = null], whatever citation events
    were received: they only reach the citation panel. *)
Theorem turn_without_done_no_message_citations (snap s : ChatState.t)
    (text : string) (fo : FetchOutcome) :
  String.eqb (trim text) "" = false ->
  ChatState.isStreaming snap = false ->
  forallb (fun ch => negb (is_done ch)) (turn_chunks fo) = true ->
  exists a, ChatState.messages (chat_turn snap text s fo)
              = ChatState.messages s ++ [user_message text; a]
    /\ ChatMessage.role a = assistant
    /\ ChatMessage.citations a = None.
Proof.
  intros Ht Hs Hnd. destruct (chat_turn_final snap s text fo Ht Hs) as (E & Hi & Hq).
  destruct (hook_inv_final _ _ _ _ Hi Hq) as ((a & (Hm & Hr & _ & Hal) & _) & _).
  cbn [fst snd] in Hm, Hal.
  rewrite turn_chunks_events, forallb_no_done in Hnd.
  pose proof (turn_hook_no_done s text (turn_events fo) Hnd) as Hn.
  exists a. rewrite E, (proj1 (turn_finish_keeps _ _)), Hm, <- app_assoc.
  split; [reflexivity|]. split; [exact Hr|].
  destruct Hal as [(_ & Hc) | (Ha & _)]; [exact Hc| congruence].
Qed.

Lemma turn_without_done_no_message_citations_witness :
  String.eqb (trim "q") "" = false /\ ChatState.isStreaming initial_state = false
  /\ forallb (fun ch => negb (is_done ch)) (turn_chunks stream_error_then_fail) = true
  /\ exists a, ChatState.messages (chat_turn initial_state "q" initial_state
                                      stream_error_then_fail)
                 = ChatState.messages initial_state ++ [user_message "q"; a]
       /\ ChatMessage.role a = assistant
       /\ ChatMessage.citations a = None.
Proof.
  split; [reflexivity|]. split; [reflexivity|]. split; [reflexivity|].
  apply (turn_without_done_no_message_citations initial_state initial_state "q"
           stream_error_then_fail); reflexivity.
Defined.

(** The citations of the assistant message and the citation panel.
    After a turn, the assistant message shows either no citations
    ([null]) or the very list the citation panel shows, and then that
    list is not empty: a [done] updater that ran on a non-empty
    [collectedCitations] array stored the array itself, and later
    citation events extend it and the panel alike. *)
Theorem turn_message_citations_panel (snap s : ChatState.t) (text : string)
    (fo : FetchOutcome) :
  String.eqb (trim text) "" = false ->
  ChatState.isStreaming snap = false ->
  exists a, ChatState.messages (chat_turn snap text s fo)
              = ChatState.messages s ++ [user_message text; a]
    /\ (ChatMessage.citations a = None
        \/ (ChatMessage.citations a = Some (ChatState.citations (chat_turn snap text s fo))
            /\ ChatState.citations (chat_turn snap text s fo) <> [])).
Proof.
  intros Ht Hs. destruct (chat_turn_final snap s text fo Ht Hs) as (E & Hi & Hq).
  destruct (hook_inv_final _ _ _ _ Hi Hq) as ((a & (Hm & _ & _ & Hal) & _) & Hcol & Hp & _).
  cbn [fst snd] in Hm, Hal.
  exists a. rewrite E, (proj1 (turn_finish_keeps _ _)),
    (proj1 (proj2 (turn_finish_keeps _ _))), Hm, <- app_assoc.
  split; [reflexivity|].
  destruct Hal as [(_ & Hc) | (_ & Hne & Hc)]; [left; exact Hc| right].
  rewrite Hp, <- Hcol. split; [exact Hc| exact Hne].
Qed.

Lemma turn_message_citations_panel_witness :
  String.eqb (trim "q") "" = false /\ ChatState.isStreaming initial_state = false
  /\ (exists a, ChatState.messages (chat_turn initial_state "q" initial_state stream_past_done)
                  = ChatState.messages initial_state ++ [user_message "q"; a]
        /\ (ChatMessage.citations a = None
            \/ (ChatMessage.citations a
                = Some (ChatState.citations
                          (chat_turn initial_state "q" initial_state stream_past_done))
                /\ ChatState.citations
                     (chat_turn initial_state "q" initial_state stream_past_done) <> [])))
  /\ ChatState.citations (chat_turn initial_state "q" initial_state stream_past_done)
     = [cit1; cit2]
  /\ ChatState.messages (chat_turn initial_state "q" initial_state stream_past_done)
     = [user_message "q";
        ChatMessage.mk assistant "Hello" (Some [cit1; cit2]) false None None].
Proof.
  split; [reflexivity|]. split; [reflexivity|]. split; [|split; reflexivity].
  apply (turn_message_citations_panel initial_state initial_state "q" stream_past_done);
    reflexivity.
Defined.

(** The session id. After a turn, the hook's [sessionId] is the session
    id of the last [done] event the loop consumed that carries a
    non-empty one; if there is none it is the session id from before the
    turn. The session ids of other events ([error] ones included) are
    ignored. *)
Theorem turn_session_id (snap s : ChatState.t) (text : string) (fo : FetchOutcome) :
  String.eqb (trim text) "" = false ->
  ChatState.isStreaming snap = false ->
  ChatState.sessionId (chat_turn snap text s fo)
  = match last_done_session (turn_chunks fo) with
    | Some x => Some x
    | None => ChatState.sessionId s
    end.
Proof.
  intros Ht Hs. destruct (chat_turn_final snap s text fo Ht Hs) as (E & Hi & Hq).
  destruct (hook_inv_final _ _ _ _ Hi Hq) as (_ & _ & _ & Hsid & _).
  rewrite E, (proj2 (proj2 (turn_finish_keeps _ _))), Hsid. reflexivity.
Qed.

Lemma turn_session_id_witness :
  String.eqb (trim "q") "" = false /\ ChatState.isStreaming initial_state = false
  /\ ChatState.sessionId (chat_turn initial_state "q" initial_state stream_past_done)
     = match last_done_session (turn_chunks stream_past_done) with
       | Some x => Some x
       | None => ChatState.sessionId initial_state
       end.
Proof.
  split; [reflexivity|]. split; [reflexivity|].
  apply (turn_session_id initial_state initial_state "q" stream_past_done); reflexivity.
Defined.

(** The error of a turn whose response body is read. The [error] the
    hook shows afterwards is the message of the failed read that ended
    the loop, if one did; otherwise the message of the last [error]
    event consumed ("Unknown error" for an empty one), or [null] when
    there was none. An [error] event does not end the loop, and a later
    [done] event does not clear it. *)
Theorem turn_error (snap s : ChatState.t) (text : string) (inps : list Inp) :
  String.eqb (trim text) "" = false ->
  ChatState.isStreaming snap = false ->
  ChatState.error (chat_turn snap text s (Body inps))
  = match loop_end inps with
    | Some (ReadFail m) => Some m
    | _ => last_error (consumed inps)
    end.
Proof.
  intros Ht Hs. destruct (chat_turn_final snap s text (Body inps) Ht Hs) as (E & Hi & Hq).
  destruct (hook_inv_final _ _ _ _ Hi Hq) as (_ & _ & _ & _ & Herr & _).
  rewrite E. cbn [turn_finish turn_chunks turn_events] in Herr |- *.
  unfold err_after in Herr.
  change (ChatState.error (turn_start s text)) with (@None string) in Herr.
  revert Herr. generalize (committed (turn_hook s text (loop_events inps))) as c.
  intros c Herr.
  assert (Herr' : ChatState.error c = last_error (consumed inps))
    by (rewrite Herr; destruct (last_error (consumed inps)); reflexivity).
  destruct (loop_end inps) as [[ls| | | |m]|];
    unfold finish, stop_streaming_flag, set_error_stop; cbn [ChatState.error];
    first [exact Herr' | reflexivity].
Qed.

Lemma turn_error_witness :
  String.eqb (trim "q") "" = false /\ ChatState.isStreaming initial_state = false
  /\ ChatState.error (chat_turn initial_state "q" initial_state
       (Body [Read [DataLine (Some (StreamChunk.mk StreamChunk.error None None None None None));
                    DataLine (Some (mk_done None))]; Eof]))
     = match loop_end [Read [DataLine (Some (StreamChunk.mk StreamChunk.error None None None None None));
                             DataLine (Some (mk_done None))]; Eof] with
       | Some (ReadFail m) => Some m
       | _ => last_error (consumed
                [Read [DataLine (Some (StreamChunk.mk StreamChunk.error None None None None None));
                       DataLine (Some (mk_done None))]; Eof])
       end.
Proof.
  split; [reflexivity|]. split; [reflexivity|].
  apply (turn_error initial_state initial_state "q"); reflexivity.
Defined.

(** When a turn still shows as streaming. After a turn, [isStreaming] is
    still [true] exactly when the response body was opened, the loop has
    not left (the body has neither ended nor been aborted nor failed),
    and no [done] or [error] event has been consumed; every other way a
    turn goes leaves [isStreaming = false]. *)
Theorem turn_streaming_iff (snap s : ChatState.t) (text : string) (fo : FetchOutcome) :
  String.eqb (trim text) "" = false ->
  ChatState.isStreaming snap = false ->
  ChatState.isStreaming (chat_turn snap text s fo) = true
  <-> exists inps, fo = Body inps /\ loop_end inps = None
        /\ existsb (fun ch => is_done ch || is_error_chunk ch) (consumed inps) = false.
Proof.
  intros Ht Hs. destruct (chat_turn_final snap s text fo Ht Hs) as (E & Hi & Hq).
  destruct (hook_inv_final _ _ _ _ Hi Hq) as (_ & _ & _ & _ & _ & Hst).
  rewrite E. revert Hst. generalize (committed (turn_hook s text (turn_events fo))) as c.
  intros c Hst. change (ChatState.isStreaming (turn_start s text)) with true in Hst.
  destruct fo as [|m|d st| |inps]; cbn [turn_finish stream_turn turn_chunks] in Hst |- *;
    try (unfold stop_streaming_flag, set_error_stop; cbn [ChatState.isStreaming];
         split; [discriminate| intros (inps & H & _); discriminate]).
  destruct (loop_end inps) as [i|] eqn:El.
  - assert (Hi' : is_read i = false) by (eapply loop_end_not_read; exact El).
    destruct i as [ls| | | |m]; try discriminate;
      unfold finish, stop_streaming_flag, set_error_stop; cbn [ChatState.isStreaming];
      (split; [discriminate| intros (inps' & H & H' & _); injection H as <-; congruence]).
  - cbn [finish]. rewrite Hst. unfold stream_after.
    destruct (existsb _ (consumed inps)) eqn:Ex.
    + split; [discriminate| intros (inps' & H & _ & H'); injection H as <-; congruence].
    + split; [intros _; exists inps; auto| reflexivity].
Qed.

Lemma turn_streaming_iff_witness :
  String.eqb (trim "q") "" = false /\ ChatState.isStreaming initial_state = false
  /\ (ChatState.isStreaming (chat_turn initial_state "q" initial_state
        (Body [Read [DataLine (Some (mk_content "partial"))]])) = true
      <-> exists inps, Body [Read [DataLine (Some (mk_content "partial"))]] = Body inps
            /\ loop_end inps = None
            /\ existsb (fun ch => is_done ch || is_error_chunk ch) (consumed inps) = false).
Proof.
  split; [reflexivity|]. split; [reflexivity|].
  apply (turn_streaming_iff initial_state initial_state "q"); reflexivity.
Defined.

(* ================================================================== *)
(** ** The chat input and the hook *)

(** What the chat input sends. When [handleSend] passes a text on, the
    input box is cleared and the text is the trimmed input: it is not
    blank and trimming it again changes nothing. So the [sendMessage] of
    the same render, whose [isStreaming] the input was given, never
    rejects it: it issues a request that carries exactly that text. *)
Theorem handleSend_then_sendMessage (input m rest : string) (snap s : ChatState.t) :
  handleSend input (ChatState.isStreaming snap) = (Some m, rest) ->
  rest = "" /\ m = trim input /\ trim m = m
  /\ exists r s', sendMessage snap m s = (Some r, s') /\ ChatRequest.message r = m.
Proof.
  unfold handleSend.
  destruct (negb (String.eqb (trim input) "") && negb (ChatState.isStreaming snap)) eqn:E;
    [|discriminate].
  intros H. injection H as <- <-.
  apply andb_true_iff in E as [E1 E2]. apply negb_true_iff in E1, E2.
  split; [reflexivity|]. split; [reflexivity|]. rewrite trim_idem. split; [reflexivity|].
  unfold sendMessage. rewrite trim_idem, E1, E2. simpl. eexists _, _. split; reflexivity.
Qed.

Lemma handleSend_then_sendMessage_witness :
  handleSend (String " " "hi ") (ChatState.isStreaming initial_state) = (Some "hi", "")
  /\ "" = "" /\ "hi" = trim (String " " "hi ") /\ trim "hi" = "hi"
  /\ exists r s', sendMessage initial_state "hi" initial_state = (Some r, s')
                  /\ ChatRequest.message r = "hi".
Proof.
  split; [reflexivity|].
  apply (handleSend_then_sendMessage (String " " "hi ") "hi" "" initial_state initial_state).
  reflexivity.
Defined.

(* ================================================================== *)
(** ** The traces page filter *)

Lemma filter_sublist_mono {A} (p q : A -> bool) (l : list A) :
  (forall x, p x = true -> q x = true) -> List.filter p l `sublist_of` List.filter q l.
Proof.
  intros Hpq. induction l as [|x l IH]; simpl; [constructor|].
  destruct (p x) eqn:Ep.
  - rewrite (Hpq x Ep). apply sublist_skip. exact IH.
  - destruct (q x); [apply sublist_cons|]; exact IH.
Qed.

Lemma filter_sublist_all {A} (p : A -> bool) (l : list A) : List.filter p l `sublist_of` l.
Proof.
  induction l as [|x l IH]; simpl; [constructor|].
  destruct (p x); [apply sublist_skip| apply sublist_cons]; exact IH.
Qed.

(** The filter ignores case. Filtering the traces with a text gives the
    same list as filtering them with the text in lower case. *)
Theorem filteredTraces_case_insensitive (traces : list TraceSummary.t) (f : string) :
  filteredTraces traces f = filteredTraces traces (toLowerCase f).
Proof.
  unfold filteredTraces. rewrite toLowerCase_empty, toLowerCase_idem. reflexivity.
Qed.

(** Typing more only narrows the list. When the text [f] occurs in the
    text [g], ignoring case (for instance [g] extends [f]), the traces
    listed for [g] are a sub-list, in the same order, of those listed
    for [f]. *)
Theorem filteredTraces_narrowing (traces : list TraceSummary.t) (f g : string) :
  includes (toLowerCase g) (toLowerCase f) = true ->
  filteredTraces traces g `sublist_of` filteredTraces traces f.
Proof.
  intros H. unfold filteredTraces.
  destruct (String.eqb g "") eqn:Eg.
  - apply String.eqb_eq in Eg. subst g.
    destruct (toLowerCase f) eqn:Ef; [|discriminate].
    destruct f; [reflexivity| discriminate].
  - destruct (String.eqb f "") eqn:Ef; [apply filter_sublist_all|].
    apply filter_sublist_mono. intros t.
    rewrite !orb_true_iff. intros [Hs | Hr]; [left | right].
    + destruct (TraceSummary.session_id t); [|discriminate].
      eapply includes_trans; [exact Hs| exact H].
    + eapply includes_trans; [exact Hr| exact H].
Qed.

Lemma filteredTraces_narrowing_witness :
  includes (toLowerCase "abc1") (toLowerCase "ABC") = true
  /\ filteredTraces [trace_abc] "abc1" `sublist_of` filteredTraces [trace_abc] "ABC".
Proof.
  split; [reflexivity|]. apply filteredTraces_narrowing. reflexivity.
Defined.

(** Short ids find their trace. The trace table shows [shortId] of a
    trace's run id and session id; typing either into the filter box
    keeps that trace in the list. *)
Theorem filteredTraces_finds_shortId (traces : list TraceSummary.t)
    (t : TraceSummary.t) :
  In t traces ->
  In t (filteredTraces traces (shortId (TraceSummary.run_id t)))
  /\ (forall sid, TraceSummary.session_id t = Some sid ->
        In t (filteredTraces traces (shortId sid))).
Proof.
  intros Hin.
  assert (Hp : forall x, includes (toLowerCase x) (toLowerCase (shortId x)) = true).
  { intros x. unfold shortId. rewrite toLowerCase_substring.
    apply includes_prefix, substring_prefix. }
  split; [|intros sid Hsid]; unfold filteredTraces;
    (destruct (String.eqb _ ""); [exact Hin|]);
    apply filter_In; (split; [exact Hin|]).
  - rewrite Hp. apply orb_true_r.
  - rewrite Hsid, Hp. reflexivity.
Qed.

Lemma filteredTraces_finds_shortId_witness :
  In trace_long [trace_long; trace_other]
  /\ shortId (TraceSummary.run_id trace_long) = "4f9c2a71"
  /\ TraceSummary.session_id trace_long = Some "7d21e0aa-93f0"
  /\ shortId "7d21e0aa-93f0" = "7d21e0aa"
  /\ In trace_long (filteredTraces [trace_long; trace_other]
                      (shortId (TraceSummary.run_id trace_long)))
  /\ In trace_long (filteredTraces [trace_long; trace_other] (shortId "7d21e0aa-93f0"))
  /\ filteredTraces [trace_long; trace_other] (shortId "7d21e0aa-93f0") = [trace_long].
Proof.
  destruct (filteredTraces_finds_shortId [trace_long; trace_other] trace_long
              (or_introl eq_refl)) as [H1 H2].
  split; [left; reflexivity|]. do 3 (split; [reflexivity|]).
  split; [exact H1|]. split; [exact (H2 "7d21e0aa-93f0" eq_refl)|].
  vm_compute. reflexivity.
Defined.

(* ================================================================== *)
(** ** [truncate] and [shortId] *)

(** [truncate]. A string within the limit is returned as it is, a longer
    one is cut to [maxLen] characters followed by "...": the result always
    starts with the first [maxLen] characters of the input, its length is
    that of the input or [maxLen + 3], and truncating twice changes
    nothing. *)
Theorem truncate_spec (str : string) (maxLen : nat) :
  truncate (truncate str maxLen) maxLen = truncate str maxLen
  /\ String.length (truncate str maxLen)
     = (if Nat.leb (String.length str) maxLen then String.length str else maxLen + 3)%nat
  /\ String.prefix (String.substring 0 maxLen str) (truncate str maxLen) = true.
Proof.
  unfold truncate. destruct (Nat.leb (String.length str) maxLen) eqn:E.
  - rewrite E. split; [reflexivity|]. split; [reflexivity|]. apply substring_prefix.
  - apply Nat.leb_gt in E.
    assert (Hl : String.length (String.substring 0 maxLen str) = maxLen)
      by (rewrite substring_length; lia).
    assert (Hl' : String.length (String.substring 0 maxLen str +:+ "...") = (maxLen + 3)%nat)
      by (rewrite str_length_app, Hl; reflexivity).
    rewrite Hl'. replace (Nat.leb (maxLen + 3) maxLen) with false
      by (symmetry; apply Nat.leb_gt; lia).
    rewrite substring_app by exact Hl.
    split; [reflexivity|]. split; [reflexivity|].
    apply prefix_spec. exists "...". reflexivity.
Qed.

(** [shortId]. The short id is the first eight characters of the id (the
    whole id when shorter), and shortening it again changes nothing. *)
Theorem shortId_spec (id : string) :
  String.length (shortId id) = Nat.min 8 (String.length id)
  /\ String.prefix (shortId id) id = true
  /\ shortId (shortId id) = shortId id.
Proof.
  unfold shortId. split; [apply substring_length|].
  split; [apply substring_prefix| apply substring_idem].
Qed.

(* ================================================================== *)
(** ** The documents page *)

Lemma count_names_lookup (docs : list DocumentResponse.t) (n : string) :
  count_names docs !! n
  = if String.eqb n "__proto__" then None
    else match name_count docs n with
         | O => None
         | S k => Some (if is_proto_key n then JOther else JNum (S k))
         end.
Proof.
  induction docs as [|d docs IH] using rev_ind.
  - unfold count_names. simpl. rewrite lookup_empty.
    destruct (String.eqb n "__proto__"); reflexivity.
  - unfold count_names in *. rewrite foldl_app. simpl.
    unfold name_count in *. rewrite List.filter_app, length_app. simpl.
    set (k := DocumentResponse.original_filename d) in *.
    set (m := foldl _ ∅ docs) in *.
    destruct (String.eqb k n) eqn:Ekn.
    + apply String.eqb_eq in Ekn. subst k. rewrite Ekn in *.
      unfold js_set. destruct (String.eqb n "__proto__") eqn:Ep; [exact IH|].
      rewrite lookup_insert_eq. unfold count_incr, js_get. rewrite IH.
      destruct (length _) as [|c]; simpl;
        destruct (is_proto_key n); rewrite ?Nat.add_1_r; reflexivity.
    + simpl. rewrite Nat.add_0_r. unfold js_set.
      destruct (String.eqb k "__proto__"); [exact IH|].
      rewrite lookup_insert_ne; [exact IH|].
      intros ->. rewrite String.eqb_refl in Ekn. discriminate.
Qed.

(** Documents flagged as duplicates. A name is in [duplicateNames] exactly
    when at least two listed documents have it as their original filename
    and it is not the name of a property every JavaScript object inherits
    ([constructor], [toString], [__proto__], ...): for those names the
    [counts] record reads the inherited member, [+ 1] turns it into a
    string that never compares greater than 1 (or, for [__proto__], the
    assignment is ignored), so such documents are never flagged. *)
Theorem duplicateNames_spec (docs : list DocumentResponse.t) (n : string) :
  n ∈ duplicateNames docs
  <-> is_proto_key n = false
      /\ (1 < length (List.filter
                         (fun d => String.eqb (DocumentResponse.original_filename d) n)
                         docs))%nat.
Proof.
  unfold duplicateNames. rewrite elem_of_list_to_set, list_elem_of_In, filter_In.
  fold (name_count docs n).
  assert (Hkeys : In n (map fst (map_to_list (count_names docs)))
                  <-> is_Some (count_names docs !! n)).
  { rewrite in_map_iff. split.
    - intros ([k v] & Hk & Hin). simpl in Hk. subst k.
      apply list_elem_of_In, elem_of_map_to_list in Hin. rewrite Hin. eexists; reflexivity.
    - intros [v Hv]. exists (n, v). split; [reflexivity|].
      apply list_elem_of_In, elem_of_map_to_list. exact Hv. }
  rewrite Hkeys. unfold js_get. rewrite count_names_lookup.
  destruct (String.eqb n "__proto__") eqn:Ep.
  - apply String.eqb_eq in Ep. subst n. simpl.
    split; [intros [[v Hv] _]; discriminate| intros [H _]; discriminate].
  - destruct (name_count docs n) as [|k].
    + split; [intros [[v Hv] _]; discriminate| intros [_ H]; lia].
    + destruct (is_proto_key n); simpl.
      * split; [intros [_ H]; discriminate| intros [H _]; discriminate].
      * rewrite Nat.ltb_lt. split; [intros [_ H]; auto| intros [_ H]; split; [eexists; reflexivity| exact H]].
Qed.

Lemma filter_length_disjoint {A} (p q : A -> bool) (l : list A) :
  (forall x, p x = true -> q x = false) ->
  (length (List.filter p l) + length (List.filter q l) <= length l)%nat.
Proof.
  intros Hpq. induction l as [|x l IH]; simpl; [lia|].
  destruct (p x) eqn:Ep; [rewrite (Hpq x Ep)|]; destruct (q x); simpl; lia.
Qed.

(** The corpus figures agree. The number of indexed documents plus the
    number of failed ones never exceeds the number of documents; without
    data every figure is zero. *)
Theorem CorpusStats_consistent (data : option (list DocumentResponse.t)) :
  (CorpusFigures.completedDocs (CorpusStats data) + CorpusFigures.failedDocs (CorpusStats data)
   <= CorpusFigures.totalDocs (CorpusStats data))%nat
  /\ CorpusStats None = CorpusFigures.mk 0 0 0 0 0.
Proof.
  split; [|reflexivity]. simpl. apply filter_length_disjoint.
  intros d H. apply String.eqb_eq in H. rewrite H. reflexivity.
Qed.

(* ================================================================== *)
(** ** The status badge *)

(** The badge ignores the case of the status and shows it as given. The
    style of the badge for a status is the one for its lower-case form,
    and the text of the badge is always the status itself (no entry of
    [statusConfig], and no inherited member, has a [label]). *)
Theorem StatusBadge_case_insensitive (status : string) :
  badge_config status = badge_config (toLowerCase status)
  /\ badge_text status = status.
Proof.
  split; [unfold badge_config; rewrite toLowerCase_idem; reflexivity|].
  unfold badge_text, badge_config.
  destruct (List.find _ statusConfig) as [p|] eqn:E.
  - apply List.find_some in E as [Hin _].
    repeat (destruct Hin as [<- | Hin]; [reflexivity|]). destruct Hin.
  - destruct (is_proto_key _); reflexivity.
Qed.

(* ================================================================== *)
(** ** The new-evaluation form *)

(** An enabled submit button always starts a run. Whenever the submit
    button is enabled, [handleSubmit] calls [createRun.mutate] with the
    trimmed name, which is not blank and is its own trim, and the chosen
    dataset. *)
Theorem NewEvalForm_enabled_submits (name dataset : string) (isPending : bool) :
  submit_disabled name dataset isPending = false ->
  exists req, handleSubmit name dataset = Some req
    /\ EvalRunRequest.name req = trim name
    /\ EvalRunRequest.name req <> ""
    /\ trim (EvalRunRequest.name req) = EvalRunRequest.name req
    /\ EvalRunRequest.dataset_name req = dataset.
Proof.
  unfold submit_disabled, handleSubmit. intros H.
  apply orb_false_iff in H as [H _]. rewrite H.
  apply orb_false_iff in H as [Hn _].
  eexists. split; [reflexivity|]. simpl. split; [reflexivity|].
  split; [intros E; rewrite E in Hn; discriminate|].
  split; [apply trim_idem| reflexivity].
Qed.

Lemma NewEvalForm_enabled_submits_witness :
  submit_disabled (String " " "baseline") "golden" false = false
  /\ exists req, handleSubmit (String " " "baseline") "golden" = Some req
       /\ EvalRunRequest.name req = trim (String " " "baseline")
       /\ EvalRunRequest.name req <> ""
       /\ trim (EvalRunRequest.name req) = EvalRunRequest.name req
       /\ EvalRunRequest.dataset_name req = "golden".
Proof.
  split; [reflexivity|]. apply (NewEvalForm_enabled_submits _ _ false). reflexivity.
Defined.

(* ================================================================== *)
(** ** The upload guard: duplicates *)

(** A duplicate name only warns. For a file that passes the type and size
    checks, [handleFile] uploads it as its last effect, and before that
    shows one warning exactly when a listed document has the same
    original filename (none while the document list is not loaded); it
    never refuses the file for that. *)
Theorem handleFile_duplicate_warns (docData : option (list DocumentResponse.t))
    (file : File.t) :
  ((String.eqb (File.type file) "application/pdf"
    || String.eqb (File.type file) "text/plain"
    || String.eqb (File.type file) "text/markdown"
    || endsWith (File.name file) ".md")
   && Z.leb (File.size file) (10 * 1024 * 1024))%bool = true ->
  handleFile docData file
  = (if has_same_name docData file
     then [ToastWarning (dq +:+ File.name file +:+ dq
                         +:+ " already exists in your corpus. Uploading a duplicate.")]
     else []) ++ [UploadMutate file].
Proof.
  intros Hacc. apply andb_true_iff in Hacc as [Hty Hsz].
  unfold handleFile. simpl existsb.
  replace (negb (_ || (_ || (_ || false))) && negb (endsWith (File.name file) ".md"))%bool
    with false
    by (revert Hty; destruct (String.eqb (File.type file) "application/pdf"),
          (String.eqb (File.type file) "text/plain"),
          (String.eqb (File.type file) "text/markdown"),
          (endsWith (File.name file) ".md"); simpl; congruence).
  rewrite Z.leb_antisym in Hsz. apply negb_true_iff in Hsz. rewrite Hsz.
  f_equal. unfold has_same_name. destruct docData as [docs|]; [|reflexivity].
  destruct (List.find _ docs) as [d|] eqn:E.
  - apply List.find_some in E as [Hin Hd].
    replace (existsb _ docs) with true; [reflexivity|].
    symmetry. apply existsb_exists. exists d. auto.
  - replace (existsb _ docs) with false; [reflexivity|].
    symmetry. apply not_true_iff_false. intros Hex.
    apply existsb_exists in Hex as (d & Hin & Hd).
    pose proof (List.find_none _ _ E d Hin) as Hn. congruence.
Qed.

Lemma handleFile_duplicate_warns_witness :
  ((String.eqb (File.type (File.mk "text/plain" "notes.txt" 42)) "application/pdf"
    || String.eqb (File.type (File.mk "text/plain" "notes.txt" 42)) "text/plain"
    || String.eqb (File.type (File.mk "text/plain" "notes.txt" 42)) "text/markdown"
    || endsWith (File.name (File.mk "text/plain" "notes.txt" 42)) ".md")
   && Z.leb (File.size (File.mk "text/plain" "notes.txt" 42)) (10 * 1024 * 1024))%bool = true
  /\ handleFile (Some [doc_named 1 "notes.txt"]) (File.mk "text/plain" "notes.txt" 42)
     = (if has_same_name (Some [doc_named 1 "notes.txt"]) (File.mk "text/plain" "notes.txt" 42)
        then [ToastWarning (dq +:+ File.name (File.mk "text/plain" "notes.txt" 42) +:+ dq
                            +:+ " already exists in your corpus. Uploading a duplicate.")]
        else []) ++ [UploadMutate (File.mk "text/plain" "notes.txt" 42)].
Proof.
  split; [reflexivity|]. apply handleFile_duplicate_warns. reflexivity.
Defined.
